(** * Schedulean: the schedule analyser of [schedulean_streamlit.py]

    A shallow embedding of the core of the program (the XER parser, the
    metrics aggregator and the redundant-logic detector) together with the
    properties of it that the specification states.

    Conventions of the embedding:
    - a Python [str] is a Rocq [string]; a character stands for a code point
      below 256;
    - a parsed row (a [dict] from column name to value) is a
      [gmap string string]; [d.get(k, v)] is [default v (d !! k)];
    - a [set] of node ids is a [gset string], a [defaultdict] is a [gmap]
      read with a default;
    - Python floats are kept abstract behind the class [FloatOps]: the code
      only parses, adds and reports them.  The examples use two instances:
      the integer-valued floats, and the binary64 values with their rounding
      addition. *)

From stdpp Require Import gmap strings list fin_maps pretty.
From Stdlib Require Import Ascii ZArith Lia SpecFloat.


(** ** Python values *)

(** The float operations the program uses: the literal [0.0], [+], and
    [float(s)] on a string, which is [None] where Python raises
    [ValueError]. *)
Class FloatOps (F : Type) := {
  f_zero : F;
  f_add : F → F → F;
  f_parse : string → option F
}.

(** Truthiness of a string: [if s:]. *)
Definition truthy (s : string) : bool := negb (String.eqb s "").

(** ** Data of the detector and of the aggregator *)

(** An adjacency entry [(succ_id, rel_type, lag)]. *)
Abbreviation edge F := (string * string * F)%type (only parsing).

(** A queue entry [(current_node, cumulative_lag, path)]. *)
Abbreviation entry F := (string * F * list string)%type (only parsing).

Definition entry_node {F : Type} (e : entry F) : string := e.1.1.
Definition entry_path {F : Type} (e : entry F) : list string := e.2.

(** The mutable state of the search: the [deque] and the [visited] set. *)
Record search_state (F : Type) := SearchState {
  queue : list (entry F);
  visited : gset string
}.
Arguments SearchState {F} _ _.
Arguments queue {F} _.
Arguments visited {F} _.

(** What one turn of the [while] loop does. *)
Inductive step_result (F : Type) :=
  | Return (b : bool)
  | Continue (st : search_state F).
Arguments Return {F} _.
Arguments Continue {F} _.

(** The entry appended to [redundant_relationships]. *)
Record redundant_relationship (F : Type) := RedundantRelationship {
  predecessor_id : string;
  successor_id : string;
  predecessor_code : string;
  successor_code : string;
  relationship_type : string;
  lag_hours : F
}.
Arguments RedundantRelationship {F} _ _ _ _ _ _.
Arguments predecessor_id {F} _.
Arguments successor_id {F} _.
Arguments predecessor_code {F} _.
Arguments successor_code {F} _.
Arguments relationship_type {F} _.
Arguments lag_hours {F} _.

(** The result of [analyze_redundant_logic]. *)
Record redundancy_report (F : Type) := RedundancyReport {
  redundant_relationships : list (redundant_relationship F);
  total_relationships_checked : nat;
  redundant_count : nat
}.
Arguments RedundancyReport {F} _ _ _.
Arguments redundant_relationships {F} _.
Arguments total_relationships_checked {F} _.
Arguments redundant_count {F} _.

(** The [costs] entry of the result of [analyze_project_data]. *)
Record cost_breakdown (F : Type) := CostBreakdown {
  labor : F;
  nonlabor : F;
  material : F
}.
Arguments CostBreakdown {F} _ _ _.
Arguments labor {F} _.
Arguments nonlabor {F} _.
Arguments material {F} _.

(** The result of [analyze_project_data]. *)
Record project_metrics (F : Type) := ProjectMetrics {
  activity_counts : gmap string nat;
  relationship_counts : gmap string nat;
  resource_counts : gmap string nat;
  total_assignments : nat;
  total_resources : nat;
  costs : cost_breakdown F;
  redundant_logic : redundancy_report F
}.
Arguments ProjectMetrics {F} _ _ _ _ _ _ _.
Arguments activity_counts {F} _.
Arguments relationship_counts {F} _.
Arguments resource_counts {F} _.
Arguments total_assignments {F} _.
Arguments total_resources {F} _.
Arguments costs {F} _.
Arguments redundant_logic {F} _.

Section Core.
Context {F : Type} `{FloatOps F}.

(** [safe_float(value, default=0.0)].  The argument is what
    [row.get(key, 0)] returns: [Some s] for a string found in the row, [None]
    for the integer [0] given as the default of [get], on which [float(0)]
    is [0.0]. *)
Definition safe_float (value : option string) (default : F) : F :=
  match value with
  | None => f_zero
  | Some s =>
      if String.eqb s "" then default
      else match f_parse s with
           | Some x => x
           | None => default
           end
  end.

(** ** The redundant-logic detector *)

(** One turn of the first loop of [analyze_redundant_logic]:
    [graph[pred_id].append((succ_id, rel_type, lag))] when both ids are
    truthy.  ([rel_map] is written by the source and never read; it is left
    out.) *)
Definition add_relationship (graph : gmap string (list (edge F)))
    (rel : gmap string string) : gmap string (list (edge F)) :=
  let pred_id := default "" (rel !! "pred_task_id") in
  let succ_id := default "" (rel !! "succ_task_id") in
  let rel_type := default "PR_FS" (rel !! "pred_type") in
  let lag := safe_float (rel !! "lag_hr_cnt") f_zero in
  if truthy pred_id && truthy succ_id
  then <[pred_id := (graph !!! pred_id) ++ [(succ_id, rel_type, lag)]]> graph
  else graph.

Definition build_graph (relationships : list (gmap string string))
    : gmap string (list (edge F)) :=
  foldl add_relationship ∅ relationships.

Definition max_depth : nat := 10.
Definition visit_cap : nat := 1000.

(** The entries appended by the [for neighbor, rel_type, lag in
    graph.get(current, [])] loop. *)
Definition neighbour_entries (graph : gmap string (list (edge F)))
    (current : string) (cumulative_lag : F) (path : list string)
    : list (entry F) :=
  omap (λ '(neighbor, rel_type, lag),
          if bool_decide (neighbor ∈ path) then None
          else Some (neighbor, f_add cumulative_lag lag, path ++ [current]))
       (default [] (graph !! current)).

(** The condition of the [while]: [queue and len(visited) < 1000]. *)
Definition loop_guard (st : search_state F) : bool :=
  match queue st with
  | [] => false
  | _ :: _ => bool_decide (size (visited st) < visit_cap)
  end.

(** The body of the [while], run when [loop_guard] holds. *)
Definition loop_body (graph : gmap string (list (edge F))) (end_ : string)
    (st : search_state F) : step_result F :=
  match queue st with
  | [] => Return false
  | (current, cumulative_lag, path) :: rest =>
      if bool_decide (max_depth < length path) then
        Continue (SearchState rest (visited st))
      else if String.eqb current end_ && bool_decide (1 < length path) then
        Return true
      else if bool_decide (current ∈ visited st) then
        Continue (SearchState rest (visited st))
      else
        Continue (SearchState
                    (rest ++ neighbour_entries graph current cumulative_lag path)
                    ({[current]} ∪ visited st))
  end.

(** The [while] loop.  [fuel] bounds the number of turns; [None] means the
    fuel ran out before the loop ended.  [bfs_loop_total] below shows that
    [search_fuel] is always enough. *)
Fixpoint bfs_loop (graph : gmap string (list (edge F))) (end_ : string)
    (fuel : nat) (st : search_state F) : option bool :=
  if loop_guard st then
    match fuel with
    | O => None
    | S fuel' =>
        match loop_body graph end_ st with
        | Return b => Some b
        | Continue st' => bfs_loop graph end_ fuel' st'
        end
    end
  else Some false.

(** The largest out-degree of the graph. *)
Definition max_out_degree (graph : gmap string (list (edge F))) : nat :=
  max_list ((λ kv, length kv.2) <$> map_to_list graph).

Definition search_fuel (graph : gmap string (list (edge F))) : nat :=
  2 + visit_cap * S (max_out_degree graph).

Definition initial_state (start : string) : search_state F :=
  SearchState [(start, f_zero, [])] ∅.

(** [has_alternate_path(graph, start, end, direct_rel)]. *)
Definition has_alternate_path (graph : gmap string (list (edge F)))
    (start end_ : string) (direct_rel : string * F) : bool :=
  default false (bfs_loop graph end_ (search_fuel graph) (initial_state start)).

(** The execution of the loop, kept for reasoning: the states on which the
    body ran, in order. *)
Fixpoint bfs_trace (graph : gmap string (list (edge F))) (end_ : string)
    (fuel : nat) (st : search_state F) : list (search_state F) :=
  if loop_guard st then
    match fuel with
    | O => []
    | S fuel' =>
        st :: match loop_body graph end_ st with
              | Return _ => []
              | Continue st' => bfs_trace graph end_ fuel' st'
              end
    end
  else [].

(** The entry a turn of the loop takes from the queue. *)
Definition dequeued_entry (st : search_state F) : option (entry F) := head (queue st).

(** Whether the turn run on [st] reaches [visited.add(current)] and the
    exploration of the neighbours. *)
Definition explores (end_ : string) (st : search_state F) : bool :=
  match queue st with
  | [] => false
  | (current, _, path) :: _ =>
      negb (bool_decide (max_depth < length path))
      && negb (String.eqb current end_ && bool_decide (1 < length path))
      && negb (bool_decide (current ∈ visited st))
  end.

(** The run of a whole search; [bfs_trace_fuel_mono] below shows that more
    fuel would not make it longer. *)
Definition search_trace (graph : gmap string (list (edge F)))
    (start end_ : string) : list (search_state F) :=
  bfs_trace graph end_ (search_fuel graph) (initial_state start).

(** The entries taken from the queue over a whole search, and those among
    them that were explored. *)
Definition dequeued (graph : gmap string (list (edge F))) (start end_ : string)
    : list (entry F) :=
  omap dequeued_entry (search_trace graph start end_).

Definition explored (graph : gmap string (list (edge F))) (start end_ : string)
    : list (entry F) :=
  omap dequeued_entry (filter (λ st, explores end_ st = true)
                              (search_trace graph start end_)).

(** [next((act.get('task_code', id) for act in activities
          if act.get('task_id', '') == id), id)]. *)
Fixpoint activity_code (activities : list (gmap string string)) (id : string)
    : string :=
  match activities with
  | [] => id
  | act :: rest =>
      if String.eqb (default "" (act !! "task_id")) id
      then default id (act !! "task_code")
      else activity_code rest id
  end.

(** One turn of the second loop of [analyze_redundant_logic], on the pair
    [(redundant_relationships, total_checked)]. *)
Definition check_relationship (graph : gmap string (list (edge F)))
    (activities : list (gmap string string))
    (acc : list (redundant_relationship F) * nat) (rel : gmap string string)
    : list (redundant_relationship F) * nat :=
  let total_checked := acc.2 + 1 in
  let pred_id := default "" (rel !! "pred_task_id") in
  let succ_id := default "" (rel !! "succ_task_id") in
  let rel_type := default "PR_FS" (rel !! "pred_type") in
  let direct_lag := safe_float (rel !! "lag_hr_cnt") f_zero in
  if truthy pred_id && truthy succ_id then
    if has_alternate_path graph pred_id succ_id (rel_type, direct_lag) then
      (acc.1 ++ [RedundantRelationship pred_id succ_id
                   (activity_code activities pred_id)
                   (activity_code activities succ_id)
                   rel_type direct_lag],
       total_checked)
    else (acc.1, total_checked)
  else (acc.1, total_checked).

(** [analyze_redundant_logic(activities, relationships)].  Nothing in the
    [try] block raises on rows of strings, so the [except] branch is not
    modelled. *)
Definition analyze_redundant_logic (activities relationships : list (gmap string string))
    : redundancy_report F :=
  let graph := build_graph relationships in
  let acc := foldl (check_relationship graph activities) ([], 0) relationships in
  RedundancyReport acc.1 acc.2 (length acc.1).

(** ** The metrics aggregator *)

(** [dict[name] += 1] on a [defaultdict(int)], and on a [dict] that holds
    [name]. *)
Definition increment (name : string) (counts : gmap string nat) : gmap string nat :=
  <[name := counts !!! name + 1]> counts.

(** [{v: 0 for v in table.values()}]. *)
Definition zero_counts (table : gmap string string) : gmap string nat :=
  list_to_map ((λ kv, (kv.2, 0)) <$> map_to_list table).

(** One turn of a histogram loop: [name = table.get(tag); if name:
    counts[name] += 1]. *)
Definition count_tag (table : gmap string string) (tag : string)
    (counts : gmap string nat) : gmap string nat :=
  match table !! tag with
  | Some name => if truthy name then increment name counts else counts
  | None => counts
  end.

(** [sum(...)] of floats, starting from [0]. *)
Definition py_sum (xs : list F) : F := foldl f_add f_zero xs.

End Core.

Definition XER_ACTIVITY_MAP : gmap string string :=
  list_to_map [
    ("TT_Task", "Task Dependent");
    ("TT_Rsrc", "Resource Dependent");
    ("TT_LOE", "Level of Effort");
    ("TT_Mile", "Start Milestone");
    ("TT_FinMile", "Finish Milestone");
    ("TT_WBS", "WBS Summary")
  ].

Definition XER_REL_MAP : gmap string string :=
  list_to_map [
    ("PR_FS", "Finish-to-Start (FS)");
    ("PR_FF", "Finish-to-Finish (FF)");
    ("PR_SS", "Start-to-Start (SS)");
    ("PR_SF", "Start-to-Finish (SF)")
  ].

(** The value of [parse_xer_simplified]: the [dict] of tables. *)
Record project_data := ProjectData {
  activities : list (gmap string string);
  relationships : list (gmap string string);
  assignments : list (gmap string string);
  resources : list (gmap string string);
  roles : list (gmap string string);
  role_rates : list (gmap string string);
  filename : string
}.

Section Analysis.
Context {F : Type} `{FloatOps F}.

Definition activity_counts_of (acts : list (gmap string string)) : gmap string nat :=
  foldl (λ counts activity,
           count_tag XER_ACTIVITY_MAP (default "" (activity !! "task_type")) counts)
        (zero_counts XER_ACTIVITY_MAP) acts.

Definition relationship_counts_of (rels : list (gmap string string)) : gmap string nat :=
  foldl (λ counts rel,
           count_tag XER_REL_MAP (default "PR_FS" (rel !! "pred_type")) counts)
        (zero_counts XER_REL_MAP) rels.

(** [{r.get('rsrc_id', ''): r for r in resources}]. *)
Definition resource_lookup_of (rsrcs : list (gmap string string))
    : gmap string (gmap string string) :=
  foldl (λ lookup r, <[default "" (r !! "rsrc_id") := r]> lookup) ∅ rsrcs.

(** [resource_lookup.get(a.get('rsrc_id', ''), {}).get('rsrc_type')], which
    is [None] when the resource or the column is absent. *)
Definition assignment_rsrc_type (lookup : gmap string (gmap string string))
    (assignment : gmap string string) : option string :=
  default ∅ (lookup !! default "" (assignment !! "rsrc_id")) !! "rsrc_type".

(** One turn of the resource-count loop; [rsrc_type] is read with the
    default [''] there. *)
Definition count_assignment (lookup : gmap string (gmap string string))
    (counts : gmap string nat) (assignment : gmap string string)
    : gmap string nat :=
  let rsrc_type := default "" (assignment_rsrc_type lookup assignment) in
  if String.eqb rsrc_type "RT_Labor" then increment "Labor" counts
  else if String.eqb rsrc_type "RT_Mat" then increment "Material" counts
  else increment "Non-Labor" counts.

Definition resource_counts_of (lookup : gmap string (gmap string string))
    (asgs : list (gmap string string)) : gmap string nat :=
  foldl (count_assignment lookup) ∅ asgs.

Definition target_cost (assignment : gmap string string) : F :=
  safe_float (assignment !! "target_cost") f_zero.

(** The three conditions of the cost sums. *)
Definition is_labor (lookup : gmap string (gmap string string))
    (a : gmap string string) : bool :=
  bool_decide (assignment_rsrc_type lookup a = Some "RT_Labor").

Definition is_material (lookup : gmap string (gmap string string))
    (a : gmap string string) : bool :=
  bool_decide (assignment_rsrc_type lookup a = Some "RT_Mat").

Definition is_nonlabor (lookup : gmap string (gmap string string))
    (a : gmap string string) : bool :=
  bool_decide (assignment_rsrc_type lookup a ∉ [Some "RT_Labor"; Some "RT_Mat"]).

(** The terms of the three cost sums. *)
Definition labor_terms (lookup : gmap string (gmap string string))
    (asgs : list (gmap string string)) : list F :=
  target_cost <$> filter (λ a, is_labor lookup a = true) asgs.

Definition material_terms (lookup : gmap string (gmap string string))
    (asgs : list (gmap string string)) : list F :=
  target_cost <$> filter (λ a, is_material lookup a = true) asgs.

Definition nonlabor_terms (lookup : gmap string (gmap string string))
    (asgs : list (gmap string string)) : list F :=
  target_cost <$> filter (λ a, is_nonlabor lookup a = true) asgs.

(** [analyze_project_data(data)]. *)
Definition analyze_project_data (data : project_data) : project_metrics F :=
  let resource_lookup := resource_lookup_of (resources data) in
  ProjectMetrics
    (activity_counts_of (activities data))
    (relationship_counts_of (relationships data))
    (resource_counts_of resource_lookup (assignments data))
    (length (assignments data))
    (length (resources data))
    (CostBreakdown
       (py_sum (labor_terms resource_lookup (assignments data)))
       (py_sum (nonlabor_terms resource_lookup (assignments data)))
       (py_sum (material_terms resource_lookup (assignments data))))
    (analyze_redundant_logic (activities data) (relationships data)).

End Analysis.

(** ** The XER parser *)

Module Xer.

(** The characters [str.strip()] removes, among the code points below 256. *)
Definition is_space (c : ascii) : bool :=
  let n := nat_of_ascii c in
  ((9 <=? n) && (n <=? 13)) || ((28 <=? n) && (n <=? 32))
  || (n =? 133) || (n =? 160).

(** The line boundaries of [str.splitlines()] among the code points below
    256, other than the carriage return, which is handled with its line
    feed. *)
Definition is_linebreak (c : ascii) : bool :=
  let n := nat_of_ascii c in
  ((10 <=? n) && (n <=? 12)) || ((28 <=? n) && (n <=? 30)) || (n =? 133).

Definition is_cr (c : ascii) : bool := nat_of_ascii c =? 13.
Definition is_lf (c : ascii) : bool := nat_of_ascii c =? 10.

Fixpoint lstrip (s : string) : string :=
  match s with
  | EmptyString => EmptyString
  | String c rest => if is_space c then lstrip rest else s
  end.

(** [s.strip()]. *)
Definition strip (s : string) : string :=
  String.rev (lstrip (String.rev (lstrip s))).

Fixpoint splitlines_from (cur s : string) : list string :=
  match s with
  | EmptyString => if String.eqb cur "" then [] else [cur]
  | String c rest =>
      if is_cr c then
        match rest with
        | EmptyString => [cur]
        | String c' rest' =>
            if is_lf c' then cur :: splitlines_from "" rest'
            else cur :: splitlines_from "" rest
        end
      else if is_linebreak c then cur :: splitlines_from "" rest
      else splitlines_from (cur +:+ String c "") rest
  end.

(** [content.splitlines()]. *)
Definition splitlines (content : string) : list string :=
  splitlines_from "" content.

Fixpoint split_from (sep : ascii) (cur s : string) : list string :=
  match s with
  | EmptyString => [cur]
  | String c rest =>
      if Ascii.eqb c sep then cur :: split_from sep "" rest
      else split_from sep (cur +:+ String c "") rest
  end.

(** [line.split('\t')]. *)
Definition split_tab (line : string) : list string :=
  split_from "009"%char "" line.

(** [line.startswith(p)]. *)
Definition startswith (line p : string) : bool := String.prefix p line.

(** The exception the parser can raise. *)
Inductive py_error := IndexError.

Inductive result (A : Type) :=
  | Ok (a : A)
  | Raise (e : py_error).
Arguments Ok {A} _.
Arguments Raise {A} _.

Definition bind {A B : Type} (r : result A) (k : A → result B) : result B :=
  match r with
  | Ok a => k a
  | Raise e => Raise e
  end.

Notation "'do' x <- r ; k" := (bind r (λ x, k))
  (at level 10, x name, r at level 100, k at level 200).

(** The local variables of [parse_xer_simplified]. *)
Record state := State {
  tasks : list (gmap string string);
  preds : list (gmap string string);
  assigns : list (gmap string string);
  resources : list (gmap string string);
  roles : list (gmap string string);
  role_rates : list (gmap string string);
  current : option string;
  cols : list string
}.

Definition initial : state := State [] [] [] [] [] [] None [].

(** [{cols[i]: values[i] if i < len(values) else '' for i in range(len(cols))}]. *)
Definition make_row (cols values : list string) : gmap string string :=
  foldl (λ row i, <[cols !!! i := default "" (values !! i)]> row)
        ∅ (seq 0 (length cols)).

(** The chain [if current == 'TASK': tasks.append(row) elif ...]. *)
Definition append_row (st : state) (table : string) (row : gmap string string)
    : state :=
  let '(State t p a r ro rr cur cs) := st in
  if String.eqb table "TASK" then State (t ++ [row]) p a r ro rr cur cs
  else if String.eqb table "TASKPRED" then State t (p ++ [row]) a r ro rr cur cs
  else if String.eqb table "TASKRSRC" then State t p (a ++ [row]) r ro rr cur cs
  else if String.eqb table "RSRC" then State t p a (r ++ [row]) ro rr cur cs
  else if String.eqb table "ROLES" then State t p a r (ro ++ [row]) rr cur cs
  else if String.eqb table "ROLERATE" then State t p a r ro (rr ++ [row]) cur cs
  else st.

(** Truthiness of [current], which is [None] or a string. *)
Definition current_table (st : state) : option string :=
  match current st with
  | Some name => if truthy name then Some name else None
  | None => None
  end.

(** One turn of the loop over the lines. *)
Definition process_line (st : state) (raw : string) : result state :=
  let line := strip raw in
  if String.eqb line "" then Ok st
  else if startswith line "%T" then
    match split_tab line !! 1 with
    | Some name =>
        Ok (State (tasks st) (preds st) (assigns st) (resources st) (roles st)
              (role_rates st) (Some name) [])
    | None => Raise IndexError
    end
  else if startswith line "%F" then
    Ok (State (tasks st) (preds st) (assigns st) (resources st) (roles st)
          (role_rates st) (current st) (drop 1 (split_tab line)))
  else if startswith line "%R" then
    match current_table st, cols st with
    | Some table, _ :: _ =>
        let values := drop 1 (split_tab line) in
        Ok (append_row st table (make_row (cols st) values))
    | _, _ => Ok st
    end
  else Ok st.

Fixpoint process_lines (st : state) (lines : list string) : result state :=
  match lines with
  | [] => Ok st
  | raw :: rest => do st' <- process_line st raw; process_lines st' rest
  end.

(** [parse_xer_simplified(content)]. *)
Definition parse_xer_simplified (content : string) : result project_data :=
  do st <- process_lines initial (splitlines content);
  Ok (ProjectData (tasks st) (preds st) (assigns st) (resources st) (roles st)
        (role_rates st) "XER File").

End Xer.

(** ** Floats with integer values

    An instance of [FloatOps] for the examples: the floats that are integers,
    written as a plain run of decimal digits, on which Python's [float] and
    [+] are exact below 2^53. *)

Fixpoint parse_digits (acc : Z) (s : string) : option Z :=
  match s with
  | EmptyString => Some acc
  | String c rest =>
      match Ascii.is_nat c with
      | Some d => parse_digits (10 * acc + Z.of_nat d) rest
      | None => None
      end
  end.

Definition parse_integer (s : string) : option Z :=
  match s with
  | EmptyString => None
  | _ => parse_digits 0 s
  end.

#[export] Instance Z_float : FloatOps Z := {
  f_zero := 0%Z;
  f_add := Z.add;
  f_parse := parse_integer
}.

(** ** Example inputs *)

(** A relationship row with the four columns the detector reads. *)
Definition relationship_row (pred succ type lag : string) : gmap string string :=
  <["lag_hr_cnt" := lag]> (<["pred_type" := type]>
    (<["succ_task_id" := succ]> (<["pred_task_id" := pred]> ∅))).

Definition fs (pred succ : string) : gmap string string :=
  relationship_row pred succ "PR_FS" "0".

(** The chain A→B, B→C with the direct edge A→C. *)
Definition chain_with_shortcut : list (gmap string string) :=
  [fs "A" "B"; fs "B" "C"; fs "A" "C"].

(** The cycle A→B→A. *)
Definition two_cycle : list (gmap string string) :=
  [fs "A" "B"; fs "B" "A"].

(** ** Walks of the graph and runs of the search *)

Section Walks.
Context {F : Type} `{FloatOps F}.

(** There is an adjacency entry from [u] to [v], of any type and lag. *)
Definition has_edge (graph : gmap string (list (edge F))) (u v : string) : Prop :=
  ∃ rel_type lag, (v, rel_type, lag) ∈ default [] (graph !! u).

(** Consecutive nodes of [nodes] are joined by edges. *)
Fixpoint is_walk (graph : gmap string (list (edge F))) (nodes : list string) : Prop :=
  match nodes with
  | u :: rest =>
      match rest with
      | v :: _ => has_edge graph u v ∧ is_walk graph rest
      | [] => True
      end
  | [] => True
  end.

(** The number of turns of the loop still possible from a state. *)
Definition potential (graph : gmap string (list (edge F))) (st : search_state F) : nat :=
  length (queue st) + (visit_cap - size (visited st)) * S (max_out_degree graph).

(** Each queue entry records a walk from [start] to its node. *)
Definition queue_walks (graph : gmap string (list (edge F))) (start : string)
    (st : search_state F) : Prop :=
  ∀ current lag path, (current, lag, path) ∈ queue st →
    is_walk graph (path ++ [current]) ∧ head (path ++ [current]) = Some start.

(** The nodes explored from a state on. *)
Definition explored_from (graph : gmap string (list (edge F))) (end_ : string)
    (fuel : nat) (st : search_state F) : list (entry F) :=
  omap dequeued_entry
       (filter (λ st, explores end_ st = true) (bfs_trace graph end_ fuel st)).


End Walks.

(** ** Example graphs of the search *)


Definition chain_node (i : nat) : string := "N" +:+ pretty i.
Definition leaf_node (i : nat) : string := "L" +:+ pretty i.

(** A chain N0→N1→...→N10 whose last node has 1001 successors L0...L1000. *)
Definition deep_fan : list (gmap string string) :=
  ((λ i, fs (chain_node i) (chain_node (S i))) <$> seq 0 10)
  ++ ((λ j, fs (chain_node 10) (leaf_node j)) <$> seq 0 1001).

(** What a reported relationship says about the edge. *)
Definition flagged_edge {F : Type} (r : redundant_relationship F)
    : string * string * string * F :=
  (predecessor_id r, successor_id r, relationship_type r, lag_hours r).

(** ** Names used to state the properties of the aggregator *)

(** The six activity types and the four relationship types of the
    histograms. *)
Definition activity_names : list string :=
  ["Task Dependent"; "Resource Dependent"; "Level of Effort";
   "Start Milestone"; "Finish Milestone"; "WBS Summary"].

Definition relationship_names : list string :=
  ["Finish-to-Start (FS)"; "Finish-to-Finish (FF)"; "Start-to-Start (SS)";
   "Start-to-Finish (SF)"].

Definition task_type_of (activity : gmap string string) : string :=
  default "" (activity !! "task_type").

Definition pred_type_of (rel : gmap string string) : string :=
  default "PR_FS" (rel !! "pred_type").

(** The rows of a table whose tag the mapping [table] sends to [name]. *)
Definition rows_named (table : gmap string string)
    (tag_of : gmap string string → string) (name : string)
    (rows : list (gmap string string)) : list (gmap string string) :=
  filter (λ row, table !! tag_of row = Some name) rows.

(** The rows of a table whose tag the mapping [table] knows. *)
Definition rows_recognised (table : gmap string string)
    (tag_of : gmap string string → string)
    (rows : list (gmap string string)) : list (gmap string string) :=
  filter (λ row, is_Some (table !! tag_of row)) rows.

(** A relationship row carries both of its ids. *)
Definition has_both_ids (rel : gmap string string) : bool :=
  truthy (default "" (rel !! "pred_task_id"))
  && truthy (default "" (rel !! "succ_task_id")).

(** A relationship row without a predecessor id. *)
Definition dangling_relationship : gmap string string :=
  <["pred_type" := "PR_FS"]> (<["succ_task_id" := "B"]> ∅).

(** The class under which the count loop files an assignment. *)
Definition assignment_class (lookup : gmap string (gmap string string))
    (assignment : gmap string string) : string :=
  let rsrc_type := default "" (assignment_rsrc_type lookup assignment) in
  if String.eqb rsrc_type "RT_Labor" then "Labor"
  else if String.eqb rsrc_type "RT_Mat" then "Material"
  else "Non-Labor".

Definition resource_classes : list string := ["Labor"; "Material"; "Non-Labor"].

(** The assignments filed under a class. *)
Definition assignments_of_class (lookup : gmap string (gmap string string))
    (class : string) (asgs : list (gmap string string))
    : list (gmap string string) :=
  filter (λ a, assignment_class lookup a = class) asgs.

(** A resource row and an assignment row with the columns the aggregator
    reads. *)
Definition resource_row (id type : string) : gmap string string :=
  <["rsrc_type" := type]> (<["rsrc_id" := id]> ∅).

Definition assignment_row (rsrc cost : string) : gmap string string :=
  <["target_cost" := cost]> (<["rsrc_id" := rsrc]> ∅).




(** Two resource rows with the same id. *)
Definition duplicate_resources : list (gmap string string) :=
  [resource_row "R1" "RT_Labor"; resource_row "R1" "RT_Mat"].

Definition duplicate_data : project_data :=
  ProjectData [] [] [assignment_row "R1" "100"] duplicate_resources [] []
    "XER File".

(** [r.get('rsrc_id', '')] and [act.get('task_id', '')]. *)
Definition rsrc_id_of (r : gmap string string) : string :=
  default "" (r !! "rsrc_id").

Definition task_id_of (act : gmap string string) : string :=
  default "" (act !! "task_id").

(** ** Example inputs of the parser *)

Definition TAB : string := String "009"%char EmptyString.
Definition LF : string := String "010"%char EmptyString.

(** The parser inside a TASK block with three declared columns. *)
Definition task_block : Xer.state :=
  Xer.State [] [] [] [] [] [] (Some "TASK") ["task_id"; "task_code"; "task_type"].

(** A row-data line with one value, and one with four. *)
Definition short_row_line : string := "%R" +:+ TAB +:+ "1".

Definition long_row_line : string :=
  "%R" +:+ TAB +:+ "1" +:+ TAB +:+ "A100" +:+ TAB +:+ "TT_Task" +:+ TAB +:+ "extra".

(** A file whose last line is a table marker with no table name. *)
Definition truncated_file : string :=
  "%T" +:+ TAB +:+ "TASK" +:+ LF
  +:+ "%F" +:+ TAB +:+ "task_id" +:+ LF
  +:+ "%R" +:+ TAB +:+ "1" +:+ LF
  +:+ "%T".

(** ** Further notions of the detector *)

Section Detours.
Context {F : Type} `{FloatOps F}.

(** What holds of an entry of the queue when [seen] is the visited set: its
    path followed by its node is a walk from [start], the path has no
    repeated node, all of it was visited, and the node is on the path at most
    as its last element. *)
Definition entry_sound (graph : gmap string (list (edge F))) (start : string)
    (seen : gset string) (e : entry F) : Prop :=
  is_walk graph (entry_path e ++ [entry_node e])
  ∧ head (entry_path e ++ [entry_node e]) = Some start
  ∧ NoDup (entry_path e)
  ∧ (∀ x, x ∈ entry_path e → x ∈ seen)
  ∧ (∀ p c, entry_path e = p ++ [c] → entry_node e ∉ p).

Definition search_sound (graph : gmap string (list (edge F))) (start : string)
    (st : search_state F) : Prop :=
  Forall (entry_sound graph start (visited st)) (queue st).

(** A detour from [start] to [end_]: the nodes of [path], then [end_], make
    a walk of 2 to 10 edges that begins at [start], visits no node twice
    before [end_], and meets [end_] before its end at most as its last
    node. *)
Definition detour (graph : gmap string (list (edge F))) (start end_ : string)
    (path : list string) : Prop :=
  is_walk graph (path ++ [end_])
  ∧ head path = Some start
  ∧ NoDup path
  ∧ 2 ≤ length path ≤ 10
  ∧ (∀ p c, path = p ++ [c] → end_ ∉ p).

(** The node ids a search from [start] can meet: [start] and the successor
    ids of the graph. *)
Definition graph_nodes (graph : gmap string (list (edge F))) (start : string)
    : gset string :=
  {[start]} ∪ list_to_set (map_to_list graph ≫= λ kv, (λ e, e.1.1) <$> kv.2).

(** The ids, type and lag the detector reads in a relationship row. *)
Definition pred_id_of (rel : gmap string string) : string :=
  default "" (rel !! "pred_task_id").

Definition succ_id_of (rel : gmap string string) : string :=
  default "" (rel !! "succ_task_id").

Definition lag_of (rel : gmap string string) : F :=
  safe_float (rel !! "lag_hr_cnt") f_zero.

(** The adjacency entries of the rows that leave [u], in row order. *)
Definition edges_from (u : string) (rels : list (gmap string string))
    : list (edge F) :=
  (λ rel, (succ_id_of rel, pred_type_of rel, lag_of rel))
    <$> filter (λ rel, has_both_ids rel = true ∧ pred_id_of rel = u) rels.

(** The relationship row is reported by the detector run on [graph]. *)
Definition is_flagged (graph : gmap string (list (edge F)))
    (rel : gmap string string) : bool :=
  has_both_ids rel
  && has_alternate_path graph (pred_id_of rel) (succ_id_of rel)
       (pred_type_of rel, lag_of rel).

(** The entry reported for a row. *)
Definition report_of (acts : list (gmap string string))
    (rel : gmap string string) : redundant_relationship F :=
  RedundantRelationship (pred_id_of rel) (succ_id_of rel)
    (activity_code acts (pred_id_of rel)) (activity_code acts (succ_id_of rel))
    (pred_type_of rel) (lag_of rel).

End Detours.

(** ** The shape of a graph and of a search state *)

(** The successor ids of a node, in adjacency order. *)
Definition successors {F : Type} (graph : gmap string (list (edge F)))
    (u : string) : list string :=
  (λ e, e.1.1) <$> default [] (graph !! u).

(** A queue entry without its lag, and a state without its lags. *)
Definition entry_shape {F : Type} (e : entry F) : string * list string :=
  (e.1.1, e.2).

Definition state_shape {F : Type} (st : search_state F)
    : list (string * list string) * gset string :=
  (entry_shape <$> queue st, visited st).

(** The nodes of the queue and the visited set stay inside [graph_nodes]. *)
Definition within_nodes {F : Type} (nodes : gset string) (st : search_state F)
    : Prop :=
  visited st ⊆ nodes ∧ Forall (λ e, entry_node e ∈ nodes) (queue st).

(** ** Notions used to state the properties of the parser *)

(** The rows of all six tables of a parser state, and of a parsed file. *)
Definition all_rows (st : Xer.state) : list (gmap string string) :=
  Xer.tasks st ++ Xer.preds st ++ Xer.assigns st ++ Xer.resources st
  ++ Xer.roles st ++ Xer.role_rates st.

Definition data_rows (data : project_data) : list (gmap string string) :=
  activities data ++ relationships data ++ assignments data ++ resources data
  ++ roles data ++ role_rates data.

(** The kinds of lines: a table marker with no tab after it, a column line,
    a row line, and a line the parser skips whatever its state. *)
Definition nameless_table_marker (raw : string) : Prop :=
  Xer.startswith (Xer.strip raw) "%T" = true
  ∧ Xer.split_tab (Xer.strip raw) !! 1 = None.

Definition is_column_line (raw : string) : bool :=
  negb (Xer.startswith (Xer.strip raw) "%T")
  && Xer.startswith (Xer.strip raw) "%F".

Definition is_row_line (raw : string) : bool :=
  Xer.startswith (Xer.strip raw) "%R".

Definition is_skipped_line (raw : string) : bool :=
  String.eqb (Xer.strip raw) ""
  || (negb (Xer.startswith (Xer.strip raw) "%T")
      && negb (Xer.startswith (Xer.strip raw) "%F")
      && negb (Xer.startswith (Xer.strip raw) "%R")).

(** The columns a line declares. *)
Definition declared_columns (raw : string) : list string :=
  drop 1 (Xer.split_tab (Xer.strip raw)).

(** The keys of [row] are the columns declared by a column line of
    [lines]. *)
Definition declared_by (lines : list string) (row : gmap string string) : Prop :=
  ∃ raw, raw ∈ lines ∧ is_column_line raw = true
         ∧ declared_columns raw ≠ []
         ∧ dom row = list_to_set (declared_columns raw).

(** The table names of which the parser keeps the rows. *)
Definition kept_tables : list string :=
  ["TASK"; "TASKPRED"; "TASKRSRC"; "RSRC"; "ROLES"; "ROLERATE"].

(** The state is one in which a row line adds a row. *)
Definition accepts_rows (st : Xer.state) : Prop :=
  ∃ table, Xer.current_table st = Some table ∧ table ∈ kept_tables
           ∧ Xer.cols st ≠ [].

(** The column list of the state is empty or was declared by a column line
    of [lines]. *)
Definition columns_declared (lines : list string) (st : Xer.state) : Prop :=
  Xer.cols st = []
  ∨ ∃ raw, raw ∈ lines ∧ is_column_line raw = true
           ∧ Xer.cols st = declared_columns raw.

(** ** The helper [get_field_value] *)

(** [get_field_value(data_row, keys)]. *)
Fixpoint get_field_value (data_row : gmap string string) (keys : list string)
    : option string :=
  match keys with
  | [] => None
  | key :: rest =>
      let val := Xer.strip (default "" (data_row !! key)) in
      if truthy val then Some val else get_field_value data_row rest
  end.

(** The value [data_row.get(key, '').strip()] is empty. *)
Definition blank_field (data_row : gmap string string) (key : string) : Prop :=
  Xer.strip (default "" (data_row !! key)) = "".

(** [lstrip] on the list of characters of a string. *)
Fixpoint lstrip_chars (l : list ascii) : list ascii :=
  match l with
  | [] => []
  | c :: rest => if Xer.is_space c then lstrip_chars rest else l
  end.

(** ** The dispatch on the file name *)

(** [str.lower()] on a code point below 256: the letters A to Z and the
    capital letters of Latin-1 (192 to 222, without the sign 215) move up
    by 32. *)
Definition lower_char (c : ascii) : ascii :=
  let n := nat_of_ascii c in
  if ((65 <=? n) && (n <=? 90))
     || ((192 <=? n) && (n <=? 222) && negb (n =? 215))
  then ascii_of_nat (n + 32)
  else c.

Fixpoint lower (s : string) : string :=
  match s with
  | EmptyString => EmptyString
  | String c rest => String (lower_char c) (lower rest)
  end.

(** [s.endswith(suffix)]. *)
Definition endswith (s suffix : string) : bool :=
  String.prefix (String.rev suffix) (String.rev s).

(** [parse_xml_simplified(content)].  The dict of the source has no
    ['roles'] and ['role_rates'] entries; nothing reads them, and they are
    empty here.  The warning shown to the user is not modelled. *)
Definition parse_xml_simplified (content : string) : project_data :=
  ProjectData [] [] [] [] [] [] "XML File".

(** [parse_file_content(content, filename)]: [None] is the value returned
    after an error was reported. *)
Definition parse_file_content (content filename : string) : option project_data :=
  if endswith (lower filename) ".xer" then
    match Xer.parse_xer_simplified content with
    | Xer.Ok data => Some data
    | Xer.Raise _ => None
    end
  else if endswith (lower filename) ".xml" then
    Some (parse_xml_simplified content)
  else None.

(** ** The comparison table of [main] *)

(** A row of [comparison_data]. *)
Record comparison_row (F : Type) := ComparisonRow {
  cmp_file : string;
  cmp_total_activities : nat;
  cmp_total_relationships : nat;
  cmp_total_assignments : nat;
  cmp_total_resources : nat;
  cmp_labor_cost : F;
  cmp_nonlabor_cost : F;
  cmp_material_cost : F;
  cmp_total_cost : F;
  cmp_redundant_relations : nat
}.
Arguments ComparisonRow {F} _ _ _ _ _ _ _ _ _ _.
Arguments cmp_file {F} _.
Arguments cmp_total_activities {F} _.
Arguments cmp_total_relationships {F} _.
Arguments cmp_total_assignments {F} _.
Arguments cmp_total_resources {F} _.
Arguments cmp_labor_cost {F} _.
Arguments cmp_nonlabor_cost {F} _.
Arguments cmp_material_cost {F} _.
Arguments cmp_total_cost {F} _.
Arguments cmp_redundant_relations {F} _.

(** [sum(counts.values())]. *)
Definition sum_values (counts : gmap string nat) : nat :=
  sum_list (map_to_list counts).*2.

(** The row [main] builds for a result; [filename] is the entry
    ['filename'] that [main] adds to the result of the analysis. *)
Definition comparison_row_of {F : Type} `{FloatOps F} (filename : string)
    (result : project_metrics F) : comparison_row F :=
  ComparisonRow filename
    (sum_values (activity_counts result))
    (sum_values (relationship_counts result))
    (total_assignments result)
    (total_resources result)
    (labor (costs result))
    (nonlabor (costs result))
    (material (costs result))
    (f_add (f_add (labor (costs result)) (nonlabor (costs result)))
           (material (costs result)))
    (redundant_count (redundant_logic result)).

(** ** Example inputs of the further properties *)

(** The rows of [chain_with_shortcut] with other types and lags. *)
Definition retyped_chain : list (gmap string string) :=
  [relationship_row "A" "B" "PR_SS" "5"; relationship_row "B" "C" "PR_FF" "7";
   relationship_row "A" "C" "PR_SF" "9"].

(** The entry reported for the shortcut A→C. *)
Definition shortcut_report : redundant_relationship Z :=
  RedundantRelationship "A" "C" "A" "C" "PR_FS" 0%Z.

(** A file of one TASK block with one row, and its tables. *)
Definition small_file : string :=
  "%T" +:+ TAB +:+ "TASK" +:+ LF
  +:+ "%F" +:+ TAB +:+ "task_id" +:+ LF
  +:+ "%R" +:+ TAB +:+ "1".

Definition small_file_data : project_data :=
  ProjectData [<["task_id" := "1"]> ∅] [] [] [] [] [] "XER File".

(** [task_block] after the two example row lines. *)
Definition task_block_filled : Xer.state :=
  Xer.State
    [<["task_id" := "1"]> (<["task_code" := ""]> (<["task_type" := ""]> ∅));
     <["task_id" := "1"]>
       (<["task_code" := "A100"]> (<["task_type" := "TT_Task"]> ∅))]
    [] [] [] [] [] (Some "TASK") ["task_id"; "task_code"; "task_type"].

(** ** The branches of a search *)

Section Branches.
Context {F : Type} `{FloatOps F}.



End Branches.


(** ** Floats in binary64

    Python's floats on the numerals written as a plain run of decimal
    digits: the values of IEEE 754 binary64, on which [float(s)] rounds the
    integer to the nearest value, ties to even, and [+] is the addition of
    the standard. *)

Definition binary64_of_Z (z : Z) : spec_float :=
  binary_normalize 53 1024 z 0 false.

#[export] Instance binary64 : FloatOps spec_float | 100 := {
  f_zero := S754_zero false;
  f_add := SFadd 53 1024;
  f_parse := λ s, binary64_of_Z <$> parse_integer s
}.




(** ** Tables of a parser state *)

(** The rows a parser state holds under a table name. *)
Definition table_rows (st : Xer.state) (table : string)
    : list (gmap string string) :=
  if String.eqb table "TASK" then Xer.tasks st
  else if String.eqb table "TASKPRED" then Xer.preds st
  else if String.eqb table "TASKRSRC" then Xer.assigns st
  else if String.eqb table "RSRC" then Xer.resources st
  else if String.eqb table "ROLES" then Xer.roles st
  else if String.eqb table "ROLERATE" then Xer.role_rates st
  else [].

(** The parser inside a TASK block that declares the column [a] twice, a
    row line with two values, and the file of that block and line. *)
Definition repeated_columns_block : Xer.state :=
  Xer.State [] [] [] [] [] [] (Some "TASK") ["a"; "a"; "b"].

Definition two_values_line : string := "%R" +:+ TAB +:+ "1" +:+ TAB +:+ "2".

Definition repeated_columns_file : string :=
  "%T" +:+ TAB +:+ "TASK" +:+ LF
  +:+ "%F" +:+ TAB +:+ "a" +:+ TAB +:+ "a" +:+ TAB +:+ "b" +:+ LF
  +:+ two_values_line.

(** * Properties *)

(** ** The search loop *)

Section SearchProperties.
Context {F : Type} `{FloatOps F}.
Implicit Types (graph : gmap string (list (edge F))) (st : search_state F).

Lemma out_degree_bound graph k l :
  graph !! k = Some l → length l ≤ max_out_degree graph.
Proof.
  intros Hk. unfold max_out_degree.
  apply max_list_elem_of_le, list_elem_of_fmap.
  exists (k, l). split; [done|]. by apply elem_of_map_to_list.
Qed.

Lemma length_omap_le {A B} (f : A → option B) (l : list A) :
  length (omap f l) ≤ length l.
Proof. induction l as [|a l IH]; csimpl; [lia|]. destruct (f a); simpl; lia. Qed.

Lemma neighbour_entries_length graph current lag path :
  length (neighbour_entries graph current lag path) ≤ max_out_degree graph.
Proof.
  unfold neighbour_entries. etrans; [apply length_omap_le|].
  destruct (graph !! current) as [l|] eqn:Hl; simpl; [|lia].
  by eapply out_degree_bound.
Qed.

(** The four ways through the body of the loop. *)
Lemma loop_body_cases graph end_ st current lag path rest :
  queue st = (current, lag, path) :: rest →
  (max_depth < length path ∧ explores end_ st = false ∧
   loop_body graph end_ st = Continue (SearchState rest (visited st)))
  ∨ (length path ≤ max_depth ∧ current = end_ ∧ 1 < length path ∧
     explores end_ st = false ∧ loop_body graph end_ st = Return true)
  ∨ (length path ≤ max_depth ∧ ¬ (current = end_ ∧ 1 < length path) ∧
     current ∈ visited st ∧ explores end_ st = false ∧
     loop_body graph end_ st = Continue (SearchState rest (visited st)))
  ∨ (length path ≤ max_depth ∧ ¬ (current = end_ ∧ 1 < length path) ∧
     (current ∉ visited st) ∧ explores end_ st = true ∧
     loop_body graph end_ st =
       Continue (SearchState (rest ++ neighbour_entries graph current lag path)
                             ({[current]} ∪ visited st))).
Proof.
  intros Hq. unfold loop_body, explores. rewrite Hq.
  destruct (bool_decide_reflect (max_depth < length path)) as [Hd|Hd].
  { left. done. }
  right. assert (length path ≤ max_depth) by lia.
  destruct (String.eqb_spec current end_) as [He|He]; simpl.
  - destruct (bool_decide_reflect (1 < length path)) as [Hl|Hl].
    { left. done. }
    right.
    destruct (bool_decide_reflect (current ∈ visited st)); [left|right];
      (repeat split; [done|tauto|done..]).
  - right.
    destruct (bool_decide_reflect (current ∈ visited st)); [left|right];
      (repeat split; [done|tauto|done..]).
Qed.

Lemma loop_guard_true st :
  loop_guard st = true →
  size (visited st) < visit_cap ∧ ∃ e rest, queue st = e :: rest.
Proof.
  unfold loop_guard. destruct (queue st) as [|e rest]; [done|].
  intros Hg%bool_decide_eq_true. eauto.
Qed.

Lemma loop_body_decreases graph end_ st st' :
  loop_guard st = true →
  loop_body graph end_ st = Continue st' →
  potential graph st' < potential graph st.
Proof.
  intros [Hsz (e & rest & Hq)]%loop_guard_true Hb.
  destruct e as [[current lag] path].
  pose proof (neighbour_entries_length graph current lag path) as Hn.
  destruct (loop_body_cases graph end_ st _ _ _ _ Hq)
    as [(_ & _ & Hc)|[(_ & _ & _ & _ & Hc)|[(_ & _ & _ & _ & Hc)|(_ & _ & Hv & _ & Hc)]]];
    rewrite Hc in Hb; simplify_eq; unfold potential; simpl; rewrite Hq; simpl;
    [lia|lia|].
  rewrite length_app, size_union, size_singleton by set_solver.
  replace (visit_cap - size (visited st))
    with (S (visit_cap - (1 + size (visited st)))) by lia.
  rewrite Nat.mul_succ_l.
  generalize ((visit_cap - (1 + size (visited st))) * S (max_out_degree graph)).
  intros p. lia.
Qed.

(** The loop ends when it is given more fuel than the potential of its
    state. *)
Lemma bfs_loop_enough_fuel graph end_ fuel st :
  potential graph st < fuel → is_Some (bfs_loop graph end_ fuel st).
Proof.
  revert st. induction fuel as [|fuel IH]; intros st Hp; [lia|].
  simpl. destruct (loop_guard st) eqn:Hg; [|by eexists].
  destruct (loop_body graph end_ st) as [b|st'] eqn:Hb; [by eexists|].
  apply IH. pose proof (loop_body_decreases _ _ _ _ Hg Hb). lia.
Qed.

Lemma initial_potential graph start :
  potential graph (initial_state start) < search_fuel graph.
Proof.
  unfold potential, search_fuel, initial_state. simpl queue. simpl visited.
  rewrite size_empty. simpl length. lia.
Qed.

(** [search_fuel] is enough for every search: the loop of
    [has_alternate_path] ends and its result is the function's. *)
Lemma bfs_loop_total graph start end_ direct_rel :
  bfs_loop graph end_ (search_fuel graph) (initial_state start)
  = Some (has_alternate_path graph start end_ direct_rel).
Proof.
  unfold has_alternate_path.
  destruct (bfs_loop_enough_fuel graph end_ (search_fuel graph)
              (initial_state start) (initial_potential graph start))
    as [b ->]. done.
Qed.

(** More fuel does not change a result or the run that led to it. *)
Lemma bfs_loop_fuel_mono graph end_ fuel fuel' st b :
  fuel ≤ fuel' →
  bfs_loop graph end_ fuel st = Some b → bfs_loop graph end_ fuel' st = Some b.
Proof.
  revert fuel' st. induction fuel as [|fuel IH]; intros fuel' st Hle; simpl.
  - destruct fuel'; simpl; destruct (loop_guard st); done.
  - destruct fuel' as [|fuel']; [lia|]. simpl.
    destruct (loop_guard st); [|done].
    destruct (loop_body graph end_ st); [done|]. apply IH. lia.
Qed.

Lemma bfs_trace_fuel_mono graph end_ fuel fuel' st :
  fuel ≤ fuel' → potential graph st < fuel →
  bfs_trace graph end_ fuel' st = bfs_trace graph end_ fuel st.
Proof.
  revert fuel' st. induction fuel as [|fuel IH]; intros fuel' st Hle Hp; [lia|].
  destruct fuel' as [|fuel']; [lia|]. simpl.
  destruct (loop_guard st) eqn:Hg; [|done].
  destruct (loop_body graph end_ st) as [b|st'] eqn:Hb; [done|].
  f_equal. apply IH; [lia|].
  pose proof (loop_body_decreases _ _ _ _ Hg Hb). lia.
Qed.

(** *** Every reported path is a walk of the graph *)

Lemma is_walk_snoc graph nodes current neighbor :
  is_walk graph (nodes ++ [current]) → has_edge graph current neighbor →
  is_walk graph (nodes ++ [current; neighbor]).
Proof.
  intros Hw He. induction nodes as [|u nodes IH]; simpl in *; [done|].
  destruct nodes as [|v nodes]; simpl in *; [tauto|].
  split; [tauto|]. apply IH. tauto.
Qed.

Lemma neighbour_entries_elem graph current lag path e :
  e ∈ neighbour_entries graph current lag path →
  ∃ neighbor rel_type l,
    e = (neighbor, f_add lag l, path ++ [current])
    ∧ (neighbor, rel_type, l) ∈ default [] (graph !! current)
    ∧ neighbor ∉ path.
Proof.
  unfold neighbour_entries. intros ([[n t] l] & Hin & Hf)%list_elem_of_omap.
  destruct (bool_decide_reflect (n ∈ path)); [done|].
  exists n, t, l. by simplify_eq.
Qed.

Lemma head_snoc_snoc (l : list string) x y : head ((l ++ [x]) ++ [y]) = head (l ++ [x]).
Proof. by destruct l. Qed.

Lemma queue_walks_step graph start end_ st st' :
  queue_walks graph start st →
  loop_body graph end_ st = Continue st' →
  queue_walks graph start st'.
Proof.
  intros Hinv Hb. destruct (queue st) as [|[[current lag] path] rest] eqn:Hq.
  { unfold loop_body in Hb. by rewrite Hq in Hb. }
  assert (Hrest : ∀ c l p, (c, l, p) ∈ rest →
            is_walk graph (p ++ [c]) ∧ head (p ++ [c]) = Some start).
  { intros c l p Hin. apply (Hinv c l p). rewrite Hq. by right. }
  destruct (loop_body_cases graph end_ st _ _ _ _ Hq)
    as [(_ & _ & Hc)|[(_ & _ & _ & _ & Hc)|[(_ & _ & _ & _ & Hc)|(_ & _ & _ & _ & Hc)]]];
    rewrite Hc in Hb; simplify_eq; intros c l p Hin; simpl in Hin; eauto.
  apply elem_of_app in Hin as [Hin|Hin]; [eauto|].
  apply neighbour_entries_elem in Hin as (n & t & l' & [= -> -> ->] & Hedge & _).
  destruct (Hinv current lag path) as [Hw Hh]; [rewrite Hq; by left|].
  split.
  - rewrite <-(assoc_L (++)). apply is_walk_snoc; [done|]. by exists t, l'.
  - by rewrite head_snoc_snoc.
Qed.

Lemma bfs_loop_sound graph start end_ fuel st :
  queue_walks graph start st →
  bfs_loop graph end_ fuel st = Some true →
  ∃ path, is_walk graph (path ++ [end_]) ∧ head (path ++ [end_]) = Some start
          ∧ 1 < length path.
Proof.
  revert st. induction fuel as [|fuel IH]; intros st Hinv; simpl.
  { by destruct (loop_guard st). }
  destruct (loop_guard st) eqn:Hg; [|done].
  apply loop_guard_true in Hg as [_ ([[current lag] path] & rest & Hq)].
  destruct (loop_body_cases graph end_ st _ _ _ _ Hq)
    as [(_ & _ & Hc)|[(_ & -> & Hl & _ & Hc)|[(_ & _ & _ & _ & Hc)|(_ & _ & _ & _ & Hc)]]];
    rewrite Hc; intros Hres;
    try (eapply IH; [|exact Hres]; eapply queue_walks_step; [exact Hinv|exact Hc]).
  exists path. destruct (Hinv end_ lag path) as [Hw Hh]; [rewrite Hq; by left|].
  done.
Qed.

Lemma initial_queue_walks graph start :
  queue_walks graph start (initial_state start).
Proof.
  intros c l p Hin. simpl in Hin. apply list_elem_of_singleton in Hin.
  by simplify_eq.
Qed.

(** A positive answer of [has_alternate_path] comes with a walk of the graph
    from [start] to [end_] over at least two edges. *)
Lemma has_alternate_path_walk graph start end_ direct_rel :
  has_alternate_path graph start end_ direct_rel = true →
  ∃ nodes, is_walk graph nodes ∧ head nodes = Some start
           ∧ last nodes = Some end_ ∧ 3 ≤ length nodes.
Proof.
  intros Ht. pose proof (bfs_loop_total graph start end_ direct_rel) as Hl.
  rewrite Ht in Hl.
  destruct (bfs_loop_sound _ _ _ _ _ (initial_queue_walks graph start) Hl)
    as (path & Hw & Hh & Hlen).
  exists (path ++ [end_]). rewrite last_snoc, length_app. simpl.
  repeat split; [done..|lia].
Qed.

(** An entry that reached its node over at most one edge never makes the
    loop answer [True]. *)
Lemma one_hop_never_counts graph end_ st current lag path rest :
  queue st = (current, lag, path) :: rest → length path ≤ 1 →
  loop_body graph end_ st ≠ Return true.
Proof.
  intros Hq Hlen.
  destruct (loop_body_cases graph end_ st _ _ _ _ Hq)
    as [(_ & _ & Hc)|[(_ & _ & Hl & _ & Hc)|[(_ & _ & _ & _ & Hc)|(_ & _ & _ & _ & Hc)]]];
    [by rewrite Hc|lia|by rewrite Hc..].
Qed.

(** *** What the run of a search explores *)

Lemma bfs_trace_unfold graph end_ fuel st :
  loop_guard st = true →
  bfs_trace graph end_ (S fuel) st
  = st :: match loop_body graph end_ st with
          | Return _ => []
          | Continue st' => bfs_trace graph end_ fuel st'
          end.
Proof. intros Hg. simpl. by rewrite Hg. Qed.

Lemma explored_from_skip graph end_ fuel st st' :
  loop_guard st = true → explores end_ st = false →
  loop_body graph end_ st = Continue st' →
  explored_from graph end_ (S fuel) st = explored_from graph end_ fuel st'.
Proof.
  intros Hg He Hb. unfold explored_from.
  rewrite bfs_trace_unfold, Hb, filter_cons_False by done || congruence. done.
Qed.

Lemma explored_from_return graph end_ fuel st b :
  loop_guard st = true → explores end_ st = false →
  loop_body graph end_ st = Return b →
  explored_from graph end_ (S fuel) st = [].
Proof.
  intros Hg He Hb. unfold explored_from.
  rewrite bfs_trace_unfold, Hb, filter_cons_False by done || congruence. done.
Qed.

Lemma explored_from_expand graph end_ fuel st st' e rest :
  loop_guard st = true → explores end_ st = true → queue st = e :: rest →
  loop_body graph end_ st = Continue st' →
  explored_from graph end_ (S fuel) st = e :: explored_from graph end_ fuel st'.
Proof.
  intros Hg He Hq Hb. unfold explored_from.
  rewrite bfs_trace_unfold, Hb, filter_cons_True by done.
  csimpl. unfold dequeued_entry at 1. by rewrite Hq.
Qed.

Lemma explored_from_done graph end_ fuel st :
  loop_guard st = false → explored_from graph end_ fuel st = [].
Proof. intros Hg. unfold explored_from. destruct fuel; simpl; by rewrite Hg. Qed.

Lemma explored_from_no_fuel graph end_ st : explored_from graph end_ 0 st = [].
Proof. unfold explored_from. simpl. by destruct (loop_guard st). Qed.

(** The explorations still to come and the nodes already visited never
    exceed the cap together. *)
Lemma explored_from_bound graph end_ fuel st :
  size (visited st) ≤ visit_cap →
  length (explored_from graph end_ fuel st) + size (visited st) ≤ visit_cap.
Proof.
  revert st. induction fuel as [|fuel IH]; intros st Hsz.
  { by rewrite explored_from_no_fuel. }
  destruct (loop_guard st) eqn:Hg; [|by rewrite explored_from_done].
  destruct (loop_guard_true _ Hg) as [Hlt ([[current lag] path] & rest & Hq)].
  destruct (loop_body_cases graph end_ st _ _ _ _ Hq)
    as [(_ & He & Hc)|[(_ & _ & _ & He & Hc)|[(_ & _ & _ & He & Hc)|(_ & _ & Hv & He & Hc)]]].
  - rewrite (explored_from_skip _ _ _ _ _ Hg He Hc).
    exact (IH (SearchState rest (visited st)) Hsz).
  - by rewrite (explored_from_return _ _ _ _ _ Hg He Hc).
  - rewrite (explored_from_skip _ _ _ _ _ Hg He Hc).
    exact (IH (SearchState rest (visited st)) Hsz).
  - rewrite (explored_from_expand _ _ _ _ _ _ _ Hg He Hq Hc). simpl.
    assert (Hs : size ({[current]} ∪ visited st) = S (size (visited st))).
    { rewrite size_union, size_singleton by set_solver. done. }
    specialize (IH (SearchState (rest ++ neighbour_entries graph current lag path)
                                ({[current]} ∪ visited st))).
    simpl in IH. rewrite Hs in IH. lia.
Qed.

(** When the explorations fill the cap, the loop answers [False]. *)
Lemma explored_from_cap graph end_ fuel st b :
  length (explored_from graph end_ fuel st) + size (visited st) = visit_cap →
  bfs_loop graph end_ fuel st = Some b → b = false.
Proof.
  revert st. induction fuel as [|fuel IH]; intros st Hcap; simpl.
  { destruct (loop_guard st); congruence. }
  destruct (loop_guard st) eqn:Hg; [|congruence].
  destruct (loop_guard_true _ Hg) as [Hlt ([[current lag] path] & rest & Hq)].
  destruct (loop_body_cases graph end_ st _ _ _ _ Hq)
    as [(_ & He & Hc)|[(_ & _ & _ & He & Hc)|[(_ & _ & _ & He & Hc)|(_ & _ & Hv & He & Hc)]]].
  - rewrite (explored_from_skip _ _ _ _ _ Hg He Hc) in Hcap. rewrite Hc.
    exact (IH (SearchState rest (visited st)) Hcap).
  - rewrite (explored_from_return _ _ _ _ _ Hg He Hc) in Hcap. simpl in Hcap. lia.
  - rewrite (explored_from_skip _ _ _ _ _ Hg He Hc) in Hcap. rewrite Hc.
    exact (IH (SearchState rest (visited st)) Hcap).
  - rewrite (explored_from_expand _ _ _ _ _ _ _ Hg He Hq Hc) in Hcap.
    rewrite Hc. apply IH. simpl in *.
    rewrite size_union, size_singleton by set_solver. lia.
Qed.


(** *** Nodes on the current path are not reached again *)



(** *** Whole searches *)

Lemma initial_visited_size (start : string) :
  size (visited (initial_state (F:=F) start)) = 0.
Proof. unfold initial_state. cbn [visited]. apply size_empty. Qed.

Lemma explored_unfold graph start end_ :
  explored graph start end_
  = explored_from graph end_ (search_fuel graph) (initial_state start).
Proof. reflexivity. Qed.

Lemma explored_within_cap graph start end_ :
  length (explored graph start end_) ≤ visit_cap.
Proof.
  rewrite explored_unfold.
  pose proof (explored_from_bound graph end_ (search_fuel graph)
                (initial_state start)) as Hb.
  rewrite initial_visited_size in Hb. assert (0 ≤ visit_cap) by lia. lia.
Qed.

Lemma explored_cap_answer graph start end_ direct_rel :
  length (explored graph start end_) = visit_cap →
  has_alternate_path graph start end_ direct_rel = false.
Proof.
  rewrite explored_unfold. intros Hcap.
  eapply (explored_from_cap graph end_ (search_fuel graph) (initial_state start));
    [|apply bfs_loop_total].
  rewrite initial_visited_size. lia.
Qed.



(** *** One branch per node *)





End SearchProperties.

(** ** The detector on the specification's examples *)

(** C1.  On the three relationships A→B, B→C and A→C (all FS, lag 0) the
    detector flags exactly the direct edge A→C, and the search that flags it
    ends on the entry that reached C over the path A, B.  A positive answer
    of the search always comes with a walk of at least two edges, and an
    entry that reached its node in at most one hop never makes the loop
    answer [True]; so on the single edge A→C nothing is flagged. *)
Theorem shortcut_is_redundant :
  (∀ activities,
     flagged_edge <$>
       redundant_relationships
         (analyze_redundant_logic (F:=Z) activities chain_with_shortcut)
     = [("A", "C", "PR_FS", 0%Z)])
  ∧ last (dequeued (F:=Z) (build_graph chain_with_shortcut) "A" "C")
    = Some ("C", 0%Z, ["A"; "B"])
  ∧ (∀ (F : Type) (HF : FloatOps F) (graph : gmap string (list (edge F)))
      start end_ direct_rel,
       has_alternate_path graph start end_ direct_rel = true →
       ∃ nodes, is_walk graph nodes ∧ head nodes = Some start
                ∧ last nodes = Some end_ ∧ 3 ≤ length nodes)
  ∧ (∀ (F : Type) (HF : FloatOps F) (graph : gmap string (list (edge F)))
      end_ st current lag path rest,
       queue st = (current, lag, path) :: rest → length path ≤ 1 →
       loop_body graph end_ st ≠ Return true)
  ∧ (∀ activities,
       redundant_relationships
         (analyze_redundant_logic (F:=Z) activities [fs "A" "C"]) = []).
Proof.
  split; [|split; [|split; [|split]]].
  - intros activities. vm_compute. reflexivity.
  - vm_compute. reflexivity.
  - intros F HF graph start end_ direct_rel. apply has_alternate_path_walk.
  - intros F HF graph end_ st current lag path rest. apply one_hop_never_counts.
  - intros activities. vm_compute. reflexivity.
Qed.

(** The nodes of [deep_fan] are pairwise different. *)
Lemma fan_nodes_nodup (n m : nat) :
  NoDup ((chain_node <$> seq 0 n) ++ (leaf_node <$> seq 0 m)).
Proof.
  apply NoDup_app. split; [|split].
  - apply NoDup_fmap_2; [|apply NoDup_seq].
    intros i j Heq. unfold chain_node in Heq. simpl in Heq.
    injection Heq as Heq. by apply (inj pretty).
  - intros x (i & -> & _)%list_elem_of_fmap (j & Heq & _)%list_elem_of_fmap.
    discriminate.
  - apply NoDup_fmap_2; [|apply NoDup_seq].
    intros i j Heq. unfold leaf_node in Heq. simpl in Heq.
    injection Heq as Heq. by apply (inj pretty).
Qed.

(** C2, the part that fails: the entries taken from the queue are not capped
    at 1000.  On [deep_fan] the search for the edge N0→N1 takes 1012 entries
    with 1012 different nodes from the queue, explores 11 of them, and
    answers [False] without reaching the cap. *)
Lemma dequeued_exceeds_cap :
  length (dequeued (F:=Z) (build_graph deep_fan) "N0" "N1") = 1012
  ∧ entry_node <$> dequeued (F:=Z) (build_graph deep_fan) "N0" "N1"
    = (chain_node <$> seq 0 11) ++ (leaf_node <$> seq 0 1001)
  ∧ NoDup (entry_node <$> dequeued (F:=Z) (build_graph deep_fan) "N0" "N1")
  ∧ length (explored (F:=Z) (build_graph deep_fan) "N0" "N1") = 11
  ∧ has_alternate_path (F:=Z) (build_graph deep_fan) "N0" "N1" ("PR_FS", 0%Z)
    = false.
Proof.
  assert (Hnodes :
    entry_node <$> dequeued (F:=Z) (build_graph deep_fan) "N0" "N1"
    = (chain_node <$> seq 0 11) ++ (leaf_node <$> seq 0 1001))
    by (vm_compute; reflexivity).
  split; [vm_compute; reflexivity|].
  split; [exact Hnodes|].
  split; [rewrite Hnodes; apply fan_nodes_nodup|].
  split; vm_compute; reflexivity.
Qed.

(** C2, as the code has it.  Every search ends: [search_fuel] turns of the
    loop are enough to reach its answer.  On the cycle A→B→A no edge is
    flagged.  Over one search at most 1000 entries are explored (marked
    visited and expanded), and a search that explores 1000 entries answers
    [False]. *)
Theorem search_terminates_within_cap :
  (∀ (F : Type) (HF : FloatOps F) (graph : gmap string (list (edge F)))
      start end_ direct_rel,
     bfs_loop graph end_ (search_fuel graph) (initial_state start)
     = Some (has_alternate_path graph start end_ direct_rel))
  ∧ (∀ activities,
       redundant_relationships
         (analyze_redundant_logic (F:=Z) activities two_cycle) = [])
  ∧ (∀ (F : Type) (HF : FloatOps F) (graph : gmap string (list (edge F)))
      start end_,
       length (explored graph start end_) ≤ 1000)
  ∧ (∀ (F : Type) (HF : FloatOps F) (graph : gmap string (list (edge F)))
      start end_ direct_rel,
       length (explored graph start end_) = 1000 →
       has_alternate_path graph start end_ direct_rel = false).
Proof.
  split; [|split; [|split]].
  - intros. apply bfs_loop_total.
  - intros activities. vm_compute. reflexivity.
  - intros F HF graph start end_. apply (explored_within_cap graph start end_).
  - intros F HF graph start end_ direct_rel Hcap.
    by apply explored_cap_answer.
Qed.



(** ** The histograms *)

Section Histograms.
Implicit Types (counts : gmap string nat) (table : gmap string string)
  (tag_of : gmap string string → string).

Lemma truthy_spec s : truthy s = true ↔ s ≠ "".
Proof. unfold truthy. destruct (String.eqb_spec s ""); naive_solver. Qed.

Lemma increment_lookup_total name counts k :
  increment name counts !!! k
  = counts !!! k + (if decide (name = k) then 1 else 0).
Proof.
  unfold increment. case_decide as Hk.
  - subst. by rewrite lookup_total_insert_eq.
  - rewrite lookup_total_insert_ne by done. lia.
Qed.

Lemma count_tag_lookup_total table tag counts name :
  truthy name = true →
  count_tag table tag counts !!! name
  = counts !!! name + (if decide (table !! tag = Some name) then 1 else 0).
Proof.
  intros Hname%truthy_spec. unfold count_tag.
  destruct (table !! tag) as [n|] eqn:Ht.
  - destruct (truthy n) eqn:Hn.
    + rewrite increment_lookup_total.
      repeat case_decide; simplify_eq; done.
    + assert (n = "") as ->.
      { destruct (decide (n = "")) as [|Hne]; [done|].
        apply truthy_spec in Hne. congruence. }
      rewrite decide_False by congruence. lia.
  - rewrite decide_False by done. lia.
Qed.

(** After the histogram loop the count of a name is its initial count plus
    the number of rows whose tag maps to it. *)
Lemma histogram_lookup_total table tag_of rows counts name :
  truthy name = true →
  foldl (λ counts row, count_tag table (tag_of row) counts) counts rows !!! name
  = counts !!! name + length (rows_named table tag_of name rows).
Proof.
  intros Hname. revert counts.
  induction rows as [|row rows IH]; intros counts; simpl; [lia|].
  rewrite IH, count_tag_lookup_total by done.
  unfold rows_named. rewrite filter_cons. case_decide; simpl; lia.
Qed.

(** The histogram loop adds no key beyond the names of the table. *)
Lemma histogram_dom table tag_of rows counts :
  (∀ tag name, table !! tag = Some name → name ∈ dom counts) →
  dom (foldl (λ counts row, count_tag table (tag_of row) counts) counts rows)
  = dom counts.
Proof.
  intros Hdom. revert counts Hdom.
  induction rows as [|row rows IH]; intros counts Hdom; simpl; [done|].
  assert (Hstep : dom (count_tag table (tag_of row) counts) = dom counts).
  { unfold count_tag. destruct (table !! tag_of row) as [n|] eqn:Ht; [|done].
    destruct (truthy n); [|done].
    unfold increment. rewrite dom_insert_L. apply Hdom in Ht.
    by apply subseteq_union_1_L, singleton_subseteq_l. }
  rewrite IH; [done|]. intros tag name Ht. rewrite Hstep. by eapply Hdom.
Qed.

Lemma activity_map_names tag name :
  XER_ACTIVITY_MAP !! tag = Some name → name ∈ activity_names.
Proof.
  intros Hl%elem_of_list_to_map_2.
  apply (list_elem_of_fmap_2 snd) in Hl. exact Hl.
Qed.

Lemma relationship_map_names tag name :
  XER_REL_MAP !! tag = Some name → name ∈ relationship_names.
Proof.
  intros Hl%elem_of_list_to_map_2.
  apply (list_elem_of_fmap_2 snd) in Hl. exact Hl.
Qed.

Lemma zero_counts_dom (items : list (string * string)) :
  NoDup items.*1 →
  dom (zero_counts (list_to_map items)) = list_to_set items.*2.
Proof.
  intros Hnd. unfold zero_counts. rewrite dom_list_to_map_L.
  rewrite <-list_fmap_compose.
  rewrite (map_to_list_to_map items Hnd). f_equal.
Qed.

Lemma zero_counts_lookup_total table name : zero_counts table !!! name = 0.
Proof.
  rewrite lookup_total_alt. unfold zero_counts.
  destruct (list_to_map _ !! name) as [n|] eqn:Hn; [|done].
  apply elem_of_list_to_map_2, list_elem_of_fmap in Hn as (kv & [= _ ->] & _).
  done.
Qed.

Lemma activity_tags_nodup :
  NoDup [("TT_Task", "Task Dependent"); ("TT_Rsrc", "Resource Dependent");
         ("TT_LOE", "Level of Effort"); ("TT_Mile", "Start Milestone");
         ("TT_FinMile", "Finish Milestone"); ("TT_WBS", "WBS Summary")].*1.
Proof. apply (bool_decide_unpack _). vm_compute. exact I. Qed.

Lemma relationship_tags_nodup :
  NoDup [("PR_FS", "Finish-to-Start (FS)"); ("PR_FF", "Finish-to-Finish (FF)");
         ("PR_SS", "Start-to-Start (SS)"); ("PR_SF", "Start-to-Finish (SF)")].*1.
Proof. apply (bool_decide_unpack _). vm_compute. exact I. Qed.

Lemma zero_counts_activity_dom :
  dom (zero_counts XER_ACTIVITY_MAP) = list_to_set activity_names.
Proof. unfold XER_ACTIVITY_MAP. by rewrite (zero_counts_dom _ activity_tags_nodup). Qed.

Lemma zero_counts_relationship_dom :
  dom (zero_counts XER_REL_MAP) = list_to_set relationship_names.
Proof. unfold XER_REL_MAP. by rewrite (zero_counts_dom _ relationship_tags_nodup). Qed.

Lemma activity_counts_dom acts :
  dom (activity_counts_of acts) = list_to_set activity_names.
Proof.
  unfold activity_counts_of.
  rewrite (histogram_dom XER_ACTIVITY_MAP task_type_of).
  - apply zero_counts_activity_dom.
  - intros tag name Hn%activity_map_names.
    rewrite zero_counts_activity_dom. by apply elem_of_list_to_set.
Qed.

Lemma relationship_counts_dom rels :
  dom (relationship_counts_of rels) = list_to_set relationship_names.
Proof.
  unfold relationship_counts_of.
  rewrite (histogram_dom XER_REL_MAP pred_type_of).
  - apply zero_counts_relationship_dom.
  - intros tag name Hn%relationship_map_names.
    rewrite zero_counts_relationship_dom. by apply elem_of_list_to_set.
Qed.

Lemma names_truthy name :
  name ∈ activity_names ++ relationship_names → truthy name = true.
Proof.
  intros Hin. repeat (apply elem_of_cons in Hin as [->|Hin]; [done|]).
  by apply elem_of_nil in Hin.
Qed.

(** A key of the domain is present with its total lookup. *)
Lemma lookup_of_dom counts name :
  name ∈ dom counts → counts !! name = Some (counts !!! name).
Proof. intros [n Hn]%elem_of_dom. by rewrite (lookup_total_correct _ _ _ Hn). Qed.

Lemma activity_counts_lookup acts name :
  name ∈ activity_names →
  activity_counts_of acts !! name
  = Some (length (rows_named XER_ACTIVITY_MAP task_type_of name acts)).
Proof.
  intros Hin. rewrite lookup_of_dom.
  - unfold activity_counts_of.
    rewrite (histogram_lookup_total XER_ACTIVITY_MAP task_type_of).
    + by rewrite zero_counts_lookup_total.
    + apply names_truthy, elem_of_app. by left.
  - rewrite activity_counts_dom. by apply elem_of_list_to_set.
Qed.

Lemma relationship_counts_lookup rels name :
  name ∈ relationship_names →
  relationship_counts_of rels !! name
  = Some (length (rows_named XER_REL_MAP pred_type_of name rels)).
Proof.
  intros Hin. rewrite lookup_of_dom.
  - unfold relationship_counts_of.
    rewrite (histogram_lookup_total XER_REL_MAP pred_type_of).
    + by rewrite zero_counts_lookup_total.
    + apply names_truthy, elem_of_app. by right.
  - rewrite relationship_counts_dom. by apply elem_of_list_to_set.
Qed.

End Histograms.
(** ** Sums over the names of a histogram *)

Lemma sum_list_fmap_plus {A} (f g : A → nat) (l : list A) :
  sum_list ((λ x, f x + g x) <$> l) = sum_list (f <$> l) + sum_list (g <$> l).
Proof. induction l as [|x l IH]; csimpl; lia. Qed.

Lemma sum_list_fmap_zero {A} (l : list A) : sum_list ((λ _, 0) <$> l) = 0.
Proof. induction l as [|x l IH]; csimpl; lia. Qed.

Lemma filter_split_length {A} (P : A → Prop) `{∀ x, Decision (P x)} (l : list A) :
  length l = length (filter P l) + length (filter (λ x, ¬ P x) l).
Proof.
  induction l as [|a l IH]; [done|]. rewrite !filter_cons.
  destruct (decide (P a)) as [Hp|Hp].
  - rewrite decide_False by tauto. simpl. lia.
  - rewrite decide_True by done. simpl. lia.
Qed.

Lemma indicator_sum (names : list string) (v : option string) :
  NoDup names →
  sum_list ((λ name, if decide (v = Some name) then 1 else 0) <$> names)
  = match v with
    | Some n => if decide (n ∈ names) then 1 else 0
    | None => 0
    end.
Proof.
  induction 1 as [|name names Hnotin Hnd IH]; csimpl.
  { by destruct v. }
  rewrite IH. destruct v as [n|]; [|by rewrite decide_False].
  destruct (decide (Some n = Some name)) as [[= ->]|Hne].
  - rewrite (decide_False (P:=name ∈ names)) by done.
    rewrite decide_True by (by left). done.
  - simpl. destruct (decide (n ∈ names)) as [Hin|Hnin].
    + rewrite decide_True by (by right). done.
    + rewrite decide_False; [done|].
      intros [->|Hin]%elem_of_cons; [congruence|done].
Qed.

(** The counts of the names add up to the number of rows with a known
    tag. *)
Lemma rows_named_sum (table : gmap string string)
    (tag_of : gmap string string → string) (names : list string) rows :
  NoDup names →
  (∀ tag name, table !! tag = Some name → name ∈ names) →
  sum_list ((λ name, length (rows_named table tag_of name rows)) <$> names)
  = length (rows_recognised table tag_of rows).
Proof.
  intros Hnd Hnames. induction rows as [|row rows IH].
  { unfold rows_named, rows_recognised. simpl. apply sum_list_fmap_zero. }
  unfold rows_recognised. rewrite filter_cons. fold (rows_recognised table tag_of rows).
  assert (Hrw :
    (λ name, length (rows_named table tag_of name (row :: rows))) <$> names
    = (λ name, (if decide (table !! tag_of row = Some name) then 1 else 0)
               + length (rows_named table tag_of name rows)) <$> names).
  { apply list_fmap_ext. intros i name _. unfold rows_named.
    rewrite filter_cons. by case_decide. }
  rewrite Hrw.
  rewrite (sum_list_fmap_plus
             (λ name, if decide (table !! tag_of row = Some name) then 1 else 0)),
    IH, indicator_sum by done.
  destruct (table !! tag_of row) as [n|] eqn:Ht.
  - rewrite decide_True by eauto. rewrite decide_True by eauto. done.
  - rewrite decide_False by (by intros [? ?]). done.
Qed.

(** C7.  For every parsed file the activity-type histogram has exactly the
    six names as keys, each with the number of activities whose type tag maps
    to it (so 0 when there is none); the six counts add up to the number of
    activities with a recognised tag, and the other activities are still
    rows of the activity table. *)
Theorem activity_histogram_complete :
  ∀ (F : Type) (HF : FloatOps F) (data : project_data),
    let counts := activity_counts (analyze_project_data (F:=F) data) in
    dom counts = list_to_set activity_names
    ∧ Forall (λ name,
                counts !! name
                = Some (length (rows_named XER_ACTIVITY_MAP task_type_of name
                                  (activities data))))
             activity_names
    ∧ sum_list ((λ name, counts !!! name) <$> activity_names)
      = length (rows_recognised XER_ACTIVITY_MAP task_type_of (activities data))
    ∧ length (activities data)
      = sum_list ((λ name, counts !!! name) <$> activity_names)
        + length (filter (λ a, ¬ is_Some (XER_ACTIVITY_MAP !! task_type_of a))
                    (activities data)).
Proof.
  intros F HF data counts. subst counts.
  unfold analyze_project_data. cbn [activity_counts].
  assert (Hsum :
    sum_list ((λ name, activity_counts_of (activities data) !!! name) <$> activity_names)
    = length (rows_recognised XER_ACTIVITY_MAP task_type_of (activities data))).
  { rewrite <-(rows_named_sum XER_ACTIVITY_MAP task_type_of activity_names).
    - f_equal. apply list_fmap_ext. intros i name Hin%list_elem_of_lookup_2.
      apply (inj Some). rewrite <-activity_counts_lookup by done.
      symmetry. apply lookup_of_dom. rewrite activity_counts_dom.
      by apply elem_of_list_to_set.
    - apply (bool_decide_unpack _). vm_compute. exact I.
    - apply activity_map_names. }
  split; [apply activity_counts_dom|].
  split; [apply Forall_forall; intros name Hin; by apply activity_counts_lookup|].
  split; [done|].
  rewrite Hsum. unfold rows_recognised. apply filter_split_length.
Qed.

(** ** The resource classes *)

Section Resources.
Context {F : Type} `{FloatOps F}.
Implicit Types (lookup : gmap string (gmap string string))
  (counts : gmap string nat) (a : gmap string string).

Lemma count_assignment_class lookup counts a :
  count_assignment lookup counts a = increment (assignment_class lookup a) counts.
Proof.
  unfold count_assignment, assignment_class.
  by repeat destruct (String.eqb _ _).
Qed.

Lemma assignment_class_known lookup a :
  assignment_class lookup a ∈ resource_classes.
Proof.
  unfold assignment_class, resource_classes.
  repeat destruct (String.eqb _ _); set_solver.
Qed.

(** After the count loop a class is a key only when an assignment was filed
    under it, and then its count is the initial count plus their number. *)
Lemma resource_counts_from lookup asgs counts class :
  foldl (count_assignment lookup) counts asgs !! class
  = if decide (length (assignments_of_class lookup class asgs) = 0)
    then counts !! class
    else Some (counts !!! class + length (assignments_of_class lookup class asgs)).
Proof.
  revert counts. unfold assignments_of_class.
  induction asgs as [|a asgs IH]; intros counts; [done|].
  simpl foldl. rewrite IH, count_assignment_class, filter_cons.
  rewrite increment_lookup_total. unfold increment.
  destruct (decide (assignment_class lookup a = class)) as [->|Hne]; simpl.
  - rewrite lookup_insert_eq. case_decide as H0; [rewrite H0|]; f_equal; lia.
  - rewrite lookup_insert_ne by done.
    case_decide; [done|]. f_equal. lia.
Qed.

Lemma resource_counts_lookup lookup asgs class :
  resource_counts_of lookup asgs !! class
  = if decide (length (assignments_of_class lookup class asgs) = 0) then None
    else Some (length (assignments_of_class lookup class asgs)).
Proof.
  unfold resource_counts_of. rewrite resource_counts_from.
  by rewrite lookup_empty, lookup_total_empty.
Qed.







End Resources.

(** ** Cost sums in exact arithmetic

    Where the addition of costs is associative and commutative with [0.0] as
    its neutral element (as it is on integer-valued floats below 2^53), a sum
    does not depend on the order of its terms. *)

Section ExactSums.
Context {F : Type} `{FloatOps F}.
Hypothesis add_comm : ∀ x y : F, f_add x y = f_add y x.
Hypothesis add_assoc : ∀ x y z : F, f_add x (f_add y z) = f_add (f_add x y) z.
Hypothesis add_zero : ∀ x : F, f_add f_zero x = x.





End ExactSums.

(** ** The class of an assignment, read off the resource table *)

(** The resource lookup keeps, for an id, the last row of the table with
    that id. *)
Lemma resource_lookup_from (rsrcs : list (gmap string string))
    (lookup : gmap string (gmap string string)) (id : string) :
  foldl (λ lookup r, <[default "" (r !! "rsrc_id") := r]> lookup) lookup rsrcs !! id
  = match last (filter (λ r, rsrc_id_of r = id) rsrcs) with
    | Some r => Some r
    | None => lookup !! id
    end.
Proof.
  revert lookup. induction rsrcs as [|r rsrcs IH]; intros lookup; [done|].
  simpl foldl. rewrite IH, filter_cons. fold (rsrc_id_of r).
  destruct (decide (rsrc_id_of r = id)) as [<-|Hne].
  - rewrite last_cons, lookup_insert_eq. by destruct (last _).
  - by rewrite lookup_insert_ne.
Qed.

Lemma resource_lookup_last (rsrcs : list (gmap string string)) (id : string) :
  resource_lookup_of rsrcs !! id = last (filter (λ r, rsrc_id_of r = id) rsrcs).
Proof.
  unfold resource_lookup_of. rewrite resource_lookup_from.
  by destruct (last _).
Qed.





(** C10.  The resource-assignment histogram has a key only for a class with
    at least one assignment: a class is looked up to the number of its
    assignments when there is one and is absent otherwise, every key is one
    of the three classes with a positive count, and without assignments the
    histogram is empty.  The activity and relationship histograms always
    hold every name, with count 0 on an empty file. *)
Theorem resource_histogram_sparse :
  ∀ (F : Type) (HF : FloatOps F) (data : project_data),
    let lookup := resource_lookup_of (resources data) in
    let counts := resource_counts (analyze_project_data (F:=F) data) in
    (∀ class,
       counts !! class
       = if decide (length (assignments_of_class lookup class (assignments data)) = 0)
         then None
         else Some (length (assignments_of_class lookup class (assignments data))))
    ∧ map_Forall (λ class n, class ∈ resource_classes ∧ 0 < n) counts
    ∧ resource_counts
        (analyze_project_data (F:=F)
           (ProjectData (activities data) (relationships data) []
              (resources data) (roles data) (role_rates data) (filename data)))
      = ∅
    ∧ dom (activity_counts (analyze_project_data (F:=F) data))
      = list_to_set activity_names
    ∧ dom (relationship_counts (analyze_project_data (F:=F) data))
      = list_to_set relationship_names
    ∧ Forall (λ name,
                activity_counts
                  (analyze_project_data (F:=F)
                     (ProjectData [] [] [] [] [] [] (filename data))) !! name
                = Some 0)
             activity_names
    ∧ Forall (λ name,
                relationship_counts
                  (analyze_project_data (F:=F)
                     (ProjectData [] [] [] [] [] [] (filename data))) !! name
                = Some 0)
             relationship_names.
Proof.
  intros F HF data lookup counts. subst counts.
  unfold analyze_project_data.
  cbn [resource_counts activity_counts relationship_counts assignments
       activities relationships]. subst lookup.
  split; [intros class; apply resource_counts_lookup|].
  split.
  { intros class n. rewrite resource_counts_lookup.
    case_decide as H0; [done|]. intros [= <-]. split; [|lia].
    destruct (assignments_of_class (resource_lookup_of (resources data)) class
                (assignments data)) as [|a l] eqn:Hl; [done|].
    assert (Hin : a ∈ assignments_of_class (resource_lookup_of (resources data))
                        class (assignments data))
      by (rewrite Hl; by left).
    apply list_elem_of_filter in Hin as [<- _]. apply assignment_class_known. }
  split; [done|].
  split; [apply activity_counts_dom|].
  split; [apply relationship_counts_dom|].
  split; apply Forall_forall; intros name Hin.
  - by rewrite activity_counts_lookup.
  - by rewrite relationship_counts_lookup.
Qed.
(** ** The lookups *)

(** The code of an activity id comes from the first row with that id. *)
Lemma activity_code_first (acts : list (gmap string string)) (id : string) :
  activity_code acts id
  = match head (filter (λ act, task_id_of act = id) acts) with
    | Some act => default id (act !! "task_code")
    | None => id
    end.
Proof.
  induction acts as [|act acts IH]; [done|].
  simpl. rewrite filter_cons. fold (task_id_of act).
  destruct (String.eqb_spec (task_id_of act) id) as [Heq|Hne].
  - by rewrite decide_True.
  - by rewrite decide_False.
Qed.

(** C9, the part that fails.  With two resource rows of id R1, the first
    labor and the second material, the lookup resolves R1 to the second row,
    and the cost of an assignment to R1 is counted as material. *)
Lemma duplicate_resource_last_wins :
  resource_lookup_of duplicate_resources !! "R1"
  = Some (resource_row "R1" "RT_Mat")
  ∧ head duplicate_resources = Some (resource_row "R1" "RT_Labor")
  ∧ resource_row "R1" "RT_Labor" ≠ resource_row "R1" "RT_Mat"
  ∧ costs (analyze_project_data (F:=Z) duplicate_data)
    = CostBreakdown 0%Z 0%Z 100%Z.
Proof.
  split; [vm_compute; reflexivity|]. split; [done|].
  split; [|vm_compute; reflexivity].
  intros Heq. apply (f_equal (λ r, r !! "rsrc_type")) in Heq.
  vm_compute in Heq. discriminate.
Qed.

(** C9, as the code has it.  Duplicate ids are never an error.  A resource
    id resolves to the last resource row with that id in table order; an
    activity id resolves to the first activity row with that id. *)
Theorem duplicate_ids_resolution :
  ∀ (rsrcs acts : list (gmap string string)) (id : string),
    resource_lookup_of rsrcs !! id
    = last (filter (λ r, rsrc_id_of r = id) rsrcs)
    ∧ activity_code acts id
      = match head (filter (λ act, task_id_of act = id) acts) with
        | Some act => default id (act !! "task_code")
        | None => id
        end.
Proof.
  intros rsrcs acts id. split.
  - apply resource_lookup_last.
  - apply activity_code_first.
Qed.
(** ** Relationship rows without an id *)

Section Dangling.
Context {F : Type} `{FloatOps F}.
Implicit Types (graph : gmap string (list (edge F)))
  (rel : gmap string string) (rels acts : list (gmap string string)).

Lemma add_relationship_dangling graph rel :
  has_both_ids rel = false → add_relationship graph rel = graph.
Proof. unfold has_both_ids, add_relationship. by intros ->. Qed.

Lemma build_graph_dangling rels1 rel rels2 :
  has_both_ids rel = false →
  build_graph (rels1 ++ rel :: rels2) = build_graph (rels1 ++ rels2).
Proof.
  intros Hd. unfold build_graph. rewrite !foldl_app. simpl.
  by rewrite add_relationship_dangling.
Qed.

Lemma check_relationship_dangling graph acts acc rel :
  has_both_ids rel = false →
  check_relationship graph acts acc rel = (acc.1, acc.2 + 1).
Proof. unfold has_both_ids, check_relationship. by intros ->. Qed.

Lemma check_relationship_total graph acts acc rel :
  (check_relationship graph acts acc rel).2 = acc.2 + 1.
Proof.
  unfold check_relationship.
  destruct (truthy _ && truthy _); [|done].
  by destruct (has_alternate_path _ _ _ _).
Qed.

(** The loop counts every row. *)
Lemma check_fold_total graph acts rels acc :
  (foldl (check_relationship graph acts) acc rels).2 = acc.2 + length rels.
Proof.
  revert acc. induction rels as [|rel rels IH]; intros acc; simpl; [lia|].
  rewrite IH, check_relationship_total. lia.
Qed.

(** What the loop reports does not depend on the count. *)
Lemma check_fold_redundant graph acts rels l n m :
  (foldl (check_relationship graph acts) (l, n) rels).1
  = (foldl (check_relationship graph acts) (l, m) rels).1.
Proof.
  revert l n m. induction rels as [|rel rels IH]; intros l n m; simpl; [done|].
  unfold check_relationship at 2 4. simpl.
  destruct (truthy _ && truthy _); [|apply IH].
  destruct (has_alternate_path _ _ _ _); apply IH.
Qed.

Lemma total_checked_all acts rels :
  total_relationships_checked (analyze_redundant_logic acts rels) = length rels.
Proof.
  unfold analyze_redundant_logic. cbn [total_relationships_checked].
  by rewrite check_fold_total.
Qed.

Lemma redundant_dangling acts rels1 rel rels2 :
  has_both_ids rel = false →
  redundant_relationships (analyze_redundant_logic acts (rels1 ++ rel :: rels2))
  = redundant_relationships (analyze_redundant_logic acts (rels1 ++ rels2)).
Proof.
  intros Hd. unfold analyze_redundant_logic. cbn [redundant_relationships].
  rewrite (build_graph_dangling _ _ _ Hd), !foldl_app. simpl.
  rewrite (check_relationship_dangling _ _ _ _ Hd).
  destruct (foldl _ _ rels1) as [l n]. apply check_fold_redundant.
Qed.

End Dangling.

Lemma relationship_counts_dangling (rels1 rels2 : list (gmap string string))
    (rel : gmap string string) (name : string) :
  XER_REL_MAP !! pred_type_of rel = Some name →
  relationship_counts_of (rels1 ++ rel :: rels2) !! name
  = Some (S (relationship_counts_of (rels1 ++ rels2) !!! name)).
Proof.
  intros Hn. pose proof (relationship_map_names _ _ Hn) as Hin.
  rewrite relationship_counts_lookup by done.
  rewrite (lookup_total_correct _ _ _ (relationship_counts_lookup _ _ Hin)).
  unfold rows_named. rewrite !filter_app, filter_cons, decide_True by done.
  rewrite !length_app. simpl. f_equal. lia.
Qed.

(** C4, the part that fails.  A relationship row without a predecessor id is
    counted in the total of relationships checked. *)
Lemma dangling_row_is_counted :
  has_both_ids dangling_relationship = false
  ∧ total_relationships_checked
      (analyze_redundant_logic (F:=Z) [] [dangling_relationship]) = 1
  ∧ total_relationships_checked (analyze_redundant_logic (F:=Z) [] []) = 0.
Proof. split; [|split]; vm_compute; reflexivity. Qed.

(** C4, as the code has it.  The total of relationships checked is the
    number of relationship rows.  A row without its predecessor id or its
    successor id adds no edge to the graph and changes nothing in the
    reported relationships; it adds one to the total of relationships
    checked; and when its type tag is one of the four known tags it adds one
    to the count of its type in the relationship histogram. *)
Theorem dangling_relationship_tallies :
  ∀ (F : Type) (HF : FloatOps F) (acts rels1 rels2 : list (gmap string string))
    (rel : gmap string string),
    has_both_ids rel = false →
    build_graph (F:=F) (rels1 ++ rel :: rels2) = build_graph (rels1 ++ rels2)
    ∧ redundant_relationships
        (analyze_redundant_logic (F:=F) acts (rels1 ++ rel :: rels2))
      = redundant_relationships (analyze_redundant_logic acts (rels1 ++ rels2))
    ∧ total_relationships_checked
        (analyze_redundant_logic (F:=F) acts (rels1 ++ rel :: rels2))
      = length (rels1 ++ rel :: rels2)
    ∧ total_relationships_checked
        (analyze_redundant_logic (F:=F) acts (rels1 ++ rel :: rels2))
      = S (total_relationships_checked
             (analyze_redundant_logic (F:=F) acts (rels1 ++ rels2)))
    ∧ (∀ name,
         XER_REL_MAP !! pred_type_of rel = Some name →
         relationship_counts_of (rels1 ++ rel :: rels2) !! name
         = Some (S (relationship_counts_of (rels1 ++ rels2) !!! name))).
Proof.
  intros F HF acts rels1 rels2 rel Hd.
  split; [by apply build_graph_dangling|].
  split; [by apply redundant_dangling|].
  split; [apply total_checked_all|].
  split; [|intros name Hn; by apply relationship_counts_dangling].
  rewrite !total_checked_all, !length_app. simpl. lia.
Qed.

(** The hypotheses of [dangling_relationship_tallies] hold of the list made of
    [dangling_relationship] alone. *)
Lemma dangling_relationship_tallies_witness :
  has_both_ids dangling_relationship = false
  ∧ XER_REL_MAP !! pred_type_of dangling_relationship
    = Some "Finish-to-Start (FS)"
  ∧ total_relationships_checked
      (analyze_redundant_logic (F:=Z) [] ([] ++ dangling_relationship :: []))
    = S (total_relationships_checked (analyze_redundant_logic (F:=Z) [] ([] ++ [])))
  ∧ relationship_counts_of ([] ++ dangling_relationship :: [])
      !! "Finish-to-Start (FS)"
    = Some (S (relationship_counts_of ([] ++ []) !!! "Finish-to-Start (FS)")).
Proof.
  split; [reflexivity|]. split; [reflexivity|].
  pose proof (dangling_relationship_tallies Z Z_float [] [] []
                dangling_relationship eq_refl) as (_ & _ & _ & Ht & Hc).
  split; [exact Ht|]. apply Hc. reflexivity.
Defined.

(** ** The parser *)

(** A set made of a list has no more elements than the list. *)
Lemma size_union_bound (X Y : gset string) : size (X ∪ Y) ≤ size X + size Y.
Proof.
  rewrite size_union_alt.
  assert (size (Y ∖ X) ≤ size Y) by (apply subseteq_size, subseteq_difference_l; done).
  lia.
Qed.

Lemma size_list_to_set_bound (l : list string) :
  size (list_to_set (C:=gset string) l) ≤ length l.
Proof.
  induction l as [|x l IH].
  { rewrite list_to_set_nil, size_empty. done. }
  rewrite list_to_set_cons. etrans; [apply size_union_bound|].
  rewrite size_singleton. simpl. lia.
Qed.

Section Rows.
Implicit Types (cols values : list string).

(** The row after the first [n] columns. *)
Lemma make_row_unfold cols values :
  Xer.make_row cols values
  = foldl (λ row i, <[cols !!! i := default "" (values !! i)]> row)
          ∅ (seq 0 (length cols)).
Proof. reflexivity. Qed.

Lemma row_prefix_dom cols values n :
  n ≤ length cols →
  dom (foldl (λ row i, <[cols !!! i := default "" (values !! i)]> row)
             (∅ : gmap string string) (seq 0 n))
  = list_to_set (take n cols).
Proof.
  induction n as [|n IH]; intros Hn.
  { simpl. by rewrite dom_empty_L. }
  rewrite seq_S, foldl_snoc, dom_insert_L, IH by lia. simpl.
  assert (Hc : cols !! n = Some (cols !!! n))
    by (apply list_lookup_lookup_total_lt; lia).
  rewrite (take_S_r _ _ _ Hc), list_to_set_snoc_L. apply (comm_L (∪)).
Qed.

Lemma row_prefix_lookup cols values n i c :
  n ≤ length cols → i < n → cols !! i = Some c →
  (∀ j, i < j → j < n → cols !! j ≠ Some c) →
  foldl (λ row i, <[cols !!! i := default "" (values !! i)]> row)
        (∅ : gmap string string) (seq 0 n) !! c
  = Some (default "" (values !! i)).
Proof.
  induction n as [|n IH]; intros Hn Hi Hc Hlast; [lia|].
  rewrite seq_S, foldl_snoc. simpl.
  destruct (decide (i = n)) as [->|Hne].
  - rewrite (list_lookup_total_correct _ _ _ Hc). apply lookup_insert_eq.
  - assert (Hcn : cols !! n = Some (cols !!! n))
      by (apply list_lookup_lookup_total_lt; lia).
    rewrite lookup_insert_ne.
    + apply IH; [lia|lia|done|]. intros j ? ?. apply Hlast; lia.
    + intros Heq. apply (Hlast n); [lia|lia|]. by rewrite Hcn, Heq.
Qed.

Lemma row_prefix_ext cols values values' n :
  n ≤ length cols →
  (∀ i, i < length cols → values !! i = values' !! i) →
  foldl (λ row i, <[cols !!! i := default "" (values !! i)]> row)
        (∅ : gmap string string) (seq 0 n)
  = foldl (λ row i, <[cols !!! i := default "" (values' !! i)]> row)
          ∅ (seq 0 n).
Proof.
  intros Hn Hext. induction n as [|n IH]; [done|].
  rewrite !seq_S, !foldl_snoc, IH by lia. simpl. by rewrite Hext by lia.
Qed.

(** The keys of a row are the declared columns. *)
Lemma make_row_dom cols values :
  dom (Xer.make_row cols values) = list_to_set cols.
Proof.
  rewrite make_row_unfold, row_prefix_dom by done. by rewrite firstn_all.
Qed.

(** A column holds the value at its position, or [""] when the line has no
    value there; of two columns with one name the later one counts. *)
Lemma make_row_lookup cols values i c :
  cols !! i = Some c → (∀ j, i < j → cols !! j ≠ Some c) →
  Xer.make_row cols values !! c = Some (default "" (values !! i)).
Proof.
  intros Hc Hlast. rewrite make_row_unfold.
  apply row_prefix_lookup; [done| |done|by auto].
  by eapply lookup_lt_Some.
Qed.

(** The values beyond the declared columns do not matter. *)
Lemma make_row_take cols values :
  Xer.make_row cols values = Xer.make_row cols (take (length cols) values).
Proof.
  rewrite !make_row_unfold. apply row_prefix_ext; [done|].
  intros i Hi. by rewrite lookup_take_lt.
Qed.

(** A row has at most as many keys as there are declared columns, and as
    many when no column name is repeated. *)
Lemma make_row_size cols values :
  size (Xer.make_row cols values) ≤ length cols
  ∧ (NoDup cols → size (Xer.make_row cols values) = length cols).
Proof.
  rewrite <-size_dom, make_row_dom. split.
  - apply size_list_to_set_bound.
  - apply size_list_to_set.
Qed.

(** When no column name is repeated every column holds the value at its
    position. *)
Lemma make_row_positional cols values i c :
  NoDup cols → cols !! i = Some c →
  Xer.make_row cols values !! c = Some (default "" (values !! i)).
Proof.
  intros Hnd Hc. apply make_row_lookup; [done|].
  intros j Hlt Hj. pose proof (NoDup_lookup _ _ _ _ Hnd Hc Hj). lia.
Qed.

End Rows.

(** A line that starts with the row marker is not blank and starts with no
    other marker. *)
Lemma row_marker_line (line : string) :
  Xer.startswith line "%R" = true →
  String.eqb line "" = false
  ∧ Xer.startswith line "%T" = false ∧ Xer.startswith line "%F" = false.
Proof.
  unfold Xer.startswith.
  destruct line as [|c1 [|c2 rest]]; cbn -[ascii_dec]; try done.
  { by destruct (ascii_dec "%"%char c1). }
  destruct (ascii_dec "%"%char c1) as [<-|]; [|done].
  destruct (ascii_dec "R"%char c2) as [<-|]; [|done]. done.
Qed.

Lemma process_row_line (st : Xer.state) (raw table : string) :
  Xer.startswith (Xer.strip raw) "%R" = true →
  Xer.current_table st = Some table →
  Xer.cols st ≠ [] →
  Xer.process_line st raw
  = Xer.Ok (Xer.append_row st table
              (Xer.make_row (Xer.cols st)
                 (drop 1 (Xer.split_tab (Xer.strip raw))))).
Proof.
  intros Hr Hcur Hcols. unfold Xer.process_line.
  destruct (row_marker_line _ Hr) as (-> & -> & ->). rewrite Hr, Hcur.
  by destruct (Xer.cols st).
Qed.

(** The parser raises exactly on a line that, once stripped, starts with the
    table marker and has no tab. *)
Lemma process_line_raises (st : Xer.state) (raw : string) :
  Xer.process_line st raw = Xer.Raise Xer.IndexError
  ↔ Xer.startswith (Xer.strip raw) "%T" = true
    ∧ Xer.split_tab (Xer.strip raw) !! 1 = None.
Proof.
  unfold Xer.process_line.
  destruct (String.eqb_spec (Xer.strip raw) "") as [->|Hne].
  { split; [done|]. by intros [? _]. }
  destruct (Xer.startswith (Xer.strip raw) "%T").
  { destruct (Xer.split_tab (Xer.strip raw) !! 1); naive_solver. }
  split; [|by intros [? _]].
  destruct (Xer.startswith (Xer.strip raw) "%F"); [done|].
  destruct (Xer.startswith (Xer.strip raw) "%R"); [|done].
  destruct (Xer.current_table st); [|done]. by destruct (Xer.cols st).
Qed.

(** The row is appended to the table of the name, when it is one of the six
    kept tables, and the other tables stay as they are. *)
Lemma append_row_table_rows (st : Xer.state) (table : string)
    (row : gmap string string) :
  (table ∈ kept_tables →
   table_rows (Xer.append_row st table row) table = table_rows st table ++ [row])
  ∧ (∀ other, other ≠ table →
       table_rows (Xer.append_row st table row) other = table_rows st other).
Proof.
  destruct st as [t p a r ro rr cur cs]. split.
  - unfold kept_tables. intros Hin.
    repeat (apply elem_of_cons in Hin as [->|Hin]; [reflexivity|]).
    by apply elem_of_nil in Hin.
  - intros other Hne. unfold Xer.append_row, table_rows.
    repeat match goal with
    | |- context [String.eqb table ?s] =>
        destruct (String.eqb_spec table s) as [->|_]
    end; cbn [Xer.tasks Xer.preds Xer.assigns Xer.resources Xer.roles Xer.role_rates];
    try done;
    repeat match goal with
    | |- context [String.eqb other ?s] =>
        destruct (String.eqb_spec other s) as [->|_]
    end; done.
Qed.

(** C5, the part that fails.  With the columns a, a, b declared, the line
    with the values 1 and 2 makes the row with [a] holding 2 and [b] holding
    the empty string: the row has two keys for three declared columns, and
    the value 1 at the first position is matched with no column. *)
Lemma repeated_column_keeps_last :
  Xer.startswith (Xer.strip two_values_line) "%R" = true
  ∧ Xer.current_table repeated_columns_block = Some "TASK"
  ∧ Xer.cols repeated_columns_block = ["a"; "a"; "b"]
  ∧ drop 1 (Xer.split_tab (Xer.strip two_values_line)) = ["1"; "2"]
  ∧ Xer.process_line repeated_columns_block two_values_line
    = Xer.Ok (Xer.append_row repeated_columns_block "TASK"
                (<["a" := "2"]> (<["b" := ""]> ∅)))
  ∧ (<["a" := "2"]> (<["b" := ""]> ∅) : gmap string string) !! "a" ≠ Some "1"
  ∧ size (<["a" := "2"]> (<["b" := ""]> ∅) : gmap string string) = 2
  ∧ Xer.parse_xer_simplified repeated_columns_file
    = Xer.Ok (ProjectData [<["a" := "2"]> (<["b" := ""]> ∅)] [] [] [] [] []
                "XER File").
Proof.
  split; [vm_compute; reflexivity|].
  split; [vm_compute; reflexivity|].
  split; [reflexivity|].
  split; [vm_compute; reflexivity|].
  split; [vm_compute; reflexivity|].
  split; [vm_compute; discriminate|].
  split; [vm_compute; reflexivity|].
  vm_compute; reflexivity.
Qed.

(** C5, as the code has it.  A row-data line met while a table is current
    and the column list is not empty makes one row, appended to the table of
    that name when it is one of the six kept tables.  The keys of the row are
    exactly the declared column names.  A column name holds the value at its
    last position in the column list, or the empty string when the line has
    no value there; so the row has at most as many keys as declared columns.
    When no column name is repeated the row has as many keys as declared
    columns and every column holds the value at its own position.  The
    values beyond the last column change nothing. *)
Theorem row_has_declared_columns :
  ∀ (st : Xer.state) (raw table : string),
    Xer.startswith (Xer.strip raw) "%R" = true →
    Xer.current_table st = Some table →
    Xer.cols st ≠ [] →
    ∃ row : gmap string string,
      Xer.process_line st raw = Xer.Ok (Xer.append_row st table row)
      ∧ row = Xer.make_row (Xer.cols st) (drop 1 (Xer.split_tab (Xer.strip raw)))
      ∧ dom row = list_to_set (Xer.cols st)
      ∧ (∀ i c,
           Xer.cols st !! i = Some c →
           (∀ j, i < j → Xer.cols st !! j ≠ Some c) →
           row !! c
           = Some (default "" (drop 1 (Xer.split_tab (Xer.strip raw)) !! i)))
      ∧ size row ≤ length (Xer.cols st)
      ∧ (NoDup (Xer.cols st) →
         size row = length (Xer.cols st)
         ∧ ∀ i c,
             Xer.cols st !! i = Some c →
             row !! c
             = Some (default "" (drop 1 (Xer.split_tab (Xer.strip raw)) !! i)))
      ∧ row = Xer.make_row (Xer.cols st)
                (take (length (Xer.cols st))
                   (drop 1 (Xer.split_tab (Xer.strip raw))))
      ∧ (table ∈ kept_tables →
         table_rows (Xer.append_row st table row) table
         = table_rows st table ++ [row])
      ∧ (∀ other, other ≠ table →
           table_rows (Xer.append_row st table row) other = table_rows st other).
Proof.
  intros st raw table Hr Hcur Hcols. eexists. split; [by apply process_row_line|].
  split; [done|]. split; [apply make_row_dom|].
  split; [intros i c; apply make_row_lookup|].
  split; [apply make_row_size|].
  split.
  { intros Hnd. split; [by apply make_row_size|].
    intros i c. by apply make_row_positional. }
  split; [apply make_row_take|]. apply append_row_table_rows.
Qed.

(** The hypotheses of [row_has_declared_columns] hold of [short_row_line] read
    in [task_block]. *)
Lemma row_has_declared_columns_witness :
  Xer.startswith (Xer.strip short_row_line) "%R" = true
  ∧ Xer.current_table task_block = Some "TASK"
  ∧ Xer.cols task_block ≠ []
  ∧ ∃ row : gmap string string,
      Xer.process_line task_block short_row_line
      = Xer.Ok (Xer.append_row task_block "TASK" row)
      ∧ row = Xer.make_row (Xer.cols task_block)
                (drop 1 (Xer.split_tab (Xer.strip short_row_line)))
      ∧ dom row = list_to_set (Xer.cols task_block)
      ∧ (∀ i c,
           Xer.cols task_block !! i = Some c →
           (∀ j, i < j → Xer.cols task_block !! j ≠ Some c) →
           row !! c
           = Some (default ""
                     (drop 1 (Xer.split_tab (Xer.strip short_row_line)) !! i)))
      ∧ size row ≤ length (Xer.cols task_block)
      ∧ (NoDup (Xer.cols task_block) →
         size row = length (Xer.cols task_block)
         ∧ ∀ i c,
             Xer.cols task_block !! i = Some c →
             row !! c
             = Some (default ""
                       (drop 1 (Xer.split_tab (Xer.strip short_row_line)) !! i)))
      ∧ row = Xer.make_row (Xer.cols task_block)
                (take (length (Xer.cols task_block))
                   (drop 1 (Xer.split_tab (Xer.strip short_row_line))))
      ∧ ("TASK" ∈ kept_tables →
         table_rows (Xer.append_row task_block "TASK" row) "TASK"
         = table_rows task_block "TASK" ++ [row])
      ∧ (∀ other, other ≠ "TASK" →
           table_rows (Xer.append_row task_block "TASK" row) other
           = table_rows task_block other).
Proof.
  split; [reflexivity|]. split; [reflexivity|]. split; [discriminate|].
  apply (row_has_declared_columns task_block short_row_line "TASK");
    [reflexivity|reflexivity|discriminate].
Defined.

(** The rows the two example lines make in [task_block]. *)
Lemma example_rows :
  Xer.make_row (Xer.cols task_block)
    (drop 1 (Xer.split_tab (Xer.strip short_row_line)))
  = <["task_id" := "1"]> (<["task_code" := ""]> (<["task_type" := ""]> ∅))
  ∧ Xer.make_row (Xer.cols task_block)
      (drop 1 (Xer.split_tab (Xer.strip long_row_line)))
    = <["task_id" := "1"]>
        (<["task_code" := "A100"]> (<["task_type" := "TT_Task"]> ∅)).
Proof. split; vm_compute; reflexivity. Qed.

(** C6.  The parse of the one-line text [%T] raises [IndexError]: the line
    is a table marker without a table name, and [line.split('\t')[1]] is out
    of range.  The same happens when that line ends a file whose earlier
    lines were parsed. *)
Theorem table_marker_without_name_raises :
  Xer.parse_xer_simplified "%T" = Xer.Raise Xer.IndexError
  ∧ Xer.parse_xer_simplified "%TASK" = Xer.Raise Xer.IndexError
  ∧ Xer.parse_xer_simplified truncated_file = Xer.Raise Xer.IndexError
  ∧ (∀ (st : Xer.state) (raw : string),
       Xer.process_line st raw = Xer.Raise Xer.IndexError
       ↔ Xer.startswith (Xer.strip raw) "%T" = true
         ∧ Xer.split_tab (Xer.strip raw) !! 1 = None).
Proof.
  split; [vm_compute; reflexivity|].
  split; [vm_compute; reflexivity|].
  split; [vm_compute; reflexivity|].
  apply process_line_raises.
Qed.

(** * Further properties *)

(** ** The graph built from the rows *)

Section GraphOfRows.
Context {F : Type} `{FloatOps F}.
Implicit Types (graph : gmap string (list (edge F)))
  (rel : gmap string string) (rels acts : list (gmap string string)).

Lemma add_relationship_lookup graph rel u :
  default [] (add_relationship graph rel !! u)
  = default [] (graph !! u) ++ edges_from u [rel].
Proof.
  unfold add_relationship, edges_from.
  fold (pred_id_of rel) (succ_id_of rel) (pred_type_of rel) (lag_of rel).
  change (truthy (pred_id_of rel) && truthy (succ_id_of rel))
    with (has_both_ids rel).
  rewrite filter_cons, filter_nil.
  destruct (has_both_ids rel) eqn:Hb.
  - destruct (decide (pred_id_of rel = u)) as [<-|Hne].
    + rewrite lookup_insert_eq, decide_True by done. simpl.
      by rewrite lookup_total_alt.
    + rewrite lookup_insert_ne by done. rewrite decide_False by tauto.
      simpl. by rewrite app_nil_r.
  - rewrite decide_False by (intros [? _]; done). simpl. by rewrite app_nil_r.
Qed.

Lemma graph_fold_lookup rels graph u :
  default [] (foldl add_relationship graph rels !! u)
  = default [] (graph !! u) ++ edges_from u rels.
Proof.
  revert graph. induction rels as [|rel rels IH]; intros graph; simpl.
  { unfold edges_from. simpl. by rewrite app_nil_r. }
  rewrite IH, add_relationship_lookup, <-(assoc_L (++)). f_equal.
  unfold edges_from. by rewrite <-fmap_app, <-filter_app.
Qed.

Lemma graph_fold_keys rels graph u :
  is_Some (foldl add_relationship graph rels !! u)
  ↔ is_Some (graph !! u) ∨ edges_from u rels ≠ [].
Proof.
  revert graph. induction rels as [|rel rels IH]; intros graph; simpl.
  { unfold edges_from. simpl. split; [by left|]. intros [?|?]; done. }
  rewrite IH. unfold add_relationship at 1.
  fold (pred_id_of rel) (succ_id_of rel) (pred_type_of rel) (lag_of rel).
  change (truthy (pred_id_of rel) && truthy (succ_id_of rel))
    with (has_both_ids rel).
  unfold edges_from. rewrite filter_cons.
  destruct (has_both_ids rel) eqn:Hb.
  - destruct (decide (pred_id_of rel = u)) as [<-|Hne].
    + rewrite lookup_insert_eq, decide_True by done. csimpl.
      split; intros _; [by right|left; by eexists].
    + rewrite lookup_insert_ne by done. rewrite decide_False by tauto. done.
  - rewrite decide_False by (intros [? _]; done). done.
Qed.

Lemma build_graph_adjacency rels u :
  default [] (build_graph rels !! u) = edges_from u rels.
Proof. unfold build_graph. by rewrite graph_fold_lookup, lookup_empty. Qed.

Lemma build_graph_keys rels u :
  is_Some (build_graph rels !! u) ↔ edges_from u rels ≠ [].
Proof.
  unfold build_graph. rewrite graph_fold_keys, lookup_empty.
  split; [intros [[? ?]|?]; done|by right].
Qed.

Lemma build_graph_edge rels u v :
  has_edge (build_graph rels) u v
  ↔ ∃ rel, rel ∈ rels ∧ has_both_ids rel = true
           ∧ pred_id_of rel = u ∧ succ_id_of rel = v.
Proof.
  unfold has_edge. setoid_rewrite build_graph_adjacency. unfold edges_from.
  split.
  - intros (t & l & (rel & [= -> -> ->] & Hin)%list_elem_of_fmap).
    apply list_elem_of_filter in Hin as [[Hb Hp] Hin]. by exists rel.
  - intros (rel & Hin & Hb & Hp & Hs). exists (pred_type_of rel), (lag_of rel).
    apply list_elem_of_fmap. exists rel. split; [by rewrite Hs|].
    by apply list_elem_of_filter.
Qed.

End GraphOfRows.
(** ** Detours *)

Section DetourProperties.
Context {F : Type} `{FloatOps F}.
Implicit Types (graph : gmap string (list (edge F))) (st : search_state F)
  (rel : gmap string string) (rels acts : list (gmap string string)).

Lemma entry_sound_mono graph start (seen seen' : gset string) (e : entry F) :
  seen ⊆ seen' → entry_sound graph start seen e → entry_sound graph start seen' e.
Proof.
  intros Hsub (Hw & Hh & Hnd & Hseen & Hoff). repeat split; try done.
  intros x Hx. apply Hsub. by apply Hseen.
Qed.

Lemma search_sound_step graph start end_ st st' :
  search_sound graph start st →
  loop_body graph end_ st = Continue st' →
  search_sound graph start st'.
Proof.
  unfold search_sound. intros Hinv Hb.
  destruct (queue st) as [|[[current lag] path] rest] eqn:Hq.
  { unfold loop_body in Hb. by rewrite Hq in Hb. }
  apply Forall_cons in Hinv as [(Hw & Hh & Hnd & Hseen & Hoff) Hrest].
  unfold entry_path, entry_node in Hw, Hh, Hnd, Hseen, Hoff. simpl in *.
  destruct (loop_body_cases graph end_ st _ _ _ _ Hq)
    as [(_ & _ & Hc)|[(_ & _ & _ & _ & Hc)|[(_ & _ & _ & _ & Hc)|(_ & _ & Hv & _ & Hc)]]];
    rewrite Hc in Hb; simplify_eq; simpl; [done..|].
  apply Forall_app. split.
  { eapply Forall_impl; [exact Hrest|]. intros e. apply entry_sound_mono.
    apply union_subseteq_r. }
  apply Forall_forall. intros e Hin.
  apply neighbour_entries_elem in Hin as (n & t & l & -> & Hedge & Hn).
  unfold entry_sound, entry_path, entry_node. simpl.
  assert (Hcp : current ∉ path) by (intros Hin; by apply Hv, Hseen).
  split; [|split; [|split; [|split]]].
  - rewrite <-(assoc_L (++)). apply is_walk_snoc; [done|]. by exists t, l.
  - by rewrite head_snoc_snoc.
  - apply NoDup_app. split; [done|]. split; [|apply NoDup_singleton].
    intros x Hx ->%list_elem_of_singleton. done.
  - intros x [Hx| ->%list_elem_of_singleton]%elem_of_app.
    + apply elem_of_union_r. by apply Hseen.
    + apply elem_of_union_l. by apply elem_of_singleton.
  - intros p c [-> _]%app_inj_tail. done.
Qed.

Lemma initial_search_sound graph start :
  search_sound graph start (initial_state start).
Proof.
  apply Forall_singleton. unfold entry_sound, entry_path, entry_node. simpl.
  repeat split; [constructor|by intros x ?%elem_of_nil|].
  intros p c Heq. by destruct p.
Qed.

Lemma bfs_loop_detour graph start end_ fuel st :
  search_sound graph start st →
  bfs_loop graph end_ fuel st = Some true →
  ∃ path, detour graph start end_ path.
Proof.
  revert st. induction fuel as [|fuel IH]; intros st Hinv; simpl.
  { by destruct (loop_guard st). }
  destruct (loop_guard st) eqn:Hg; [|done].
  apply loop_guard_true in Hg as [_ ([[current lag] path] & rest & Hq)].
  destruct (loop_body_cases graph end_ st _ _ _ _ Hq)
    as [(_ & _ & Hc)|[(Hd & -> & Hl & _ & Hc)|[(_ & _ & _ & _ & Hc)|(_ & _ & _ & _ & Hc)]]];
    rewrite Hc; intros Hres;
    try (eapply IH; [|exact Hres]; eapply search_sound_step; [exact Hinv|exact Hc]).
  exists path. unfold search_sound in Hinv. rewrite Hq in Hinv.
  apply Forall_cons in Hinv as [(Hw & Hh & Hnd & Hseen & Hoff) _].
  unfold entry_path, entry_node in Hw, Hh, Hnd, Hoff. simpl in *.
  unfold max_depth in Hd.
  repeat split; [done| |done|lia|lia|done].
  destruct path; [simpl in Hl; lia|done].
Qed.

(** A positive answer of the search comes with a detour. *)
Lemma has_alternate_path_detour graph start end_ direct_rel :
  has_alternate_path graph start end_ direct_rel = true →
  ∃ path, detour graph start end_ path.
Proof.
  intros Ht. pose proof (bfs_loop_total graph start end_ direct_rel) as Hl.
  rewrite Ht in Hl.
  exact (bfs_loop_detour _ _ _ _ _ (initial_search_sound graph start) Hl).
Qed.

Lemma is_walk_last_edge graph (nodes : list string) (c v : string) :
  is_walk graph (nodes ++ [c; v]) → has_edge graph c v.
Proof.
  induction nodes as [|u nodes IH]; simpl; [tauto|].
  destruct nodes as [|w nodes]; simpl in *; tauto.
Qed.

Lemma detour_last_edge graph start end_ path :
  detour graph start end_ path →
  ∃ p c, path = p ++ [c] ∧ p ≠ [] ∧ head p = Some start
         ∧ has_edge graph c end_ ∧ c ∉ p ∧ end_ ∉ p.
Proof.
  intros (Hw & Hh & Hnd & [Hl _] & Hoff).
  destruct (decide (path = [])) as [->|Hne]; [simpl in Hl; lia|].
  destruct (exists_last Hne) as (p & c & ->).
  rewrite length_app in Hl. simpl in Hl.
  exists p, c. split; [done|]. split; [by destruct p; [simpl in Hl; lia|]|].
  split; [by destruct p; [simpl in Hl; lia|]|].
  split; [apply (is_walk_last_edge graph p); by rewrite <-(assoc_L (++)) in Hw|].
  split; [|by eapply Hoff].
  apply NoDup_app in Hnd as (_ & Hdis & _). intros Hc.
  apply (Hdis c Hc). by apply list_elem_of_singleton.
Qed.

(** A search from a node to itself answers [False]. *)
Lemma no_detour_to_start graph start direct_rel :
  has_alternate_path graph start start direct_rel = false.
Proof.
  destruct (has_alternate_path graph start start direct_rel) eqn:Ht; [|done].
  apply has_alternate_path_detour in Ht as (path & Hd).
  apply detour_last_edge in Hd as (p & c & _ & Hne & Hh & _ & _ & Hs).
  destruct p as [|x p]; [done|]. simpl in Hh. simplify_eq. exfalso.
  apply Hs. by left.
Qed.

(** When every edge into [end_] leaves [start], the search answers
    [False]. *)
Lemma no_detour_sole_predecessor graph start end_ direct_rel :
  (∀ x, has_edge graph x end_ → x = start) →
  has_alternate_path graph start end_ direct_rel = false.
Proof.
  intros Hsole.
  destruct (has_alternate_path graph start end_ direct_rel) eqn:Ht; [|done].
  apply has_alternate_path_detour in Ht as (path & Hd).
  apply detour_last_edge in Hd as (p & c & _ & Hne & Hh & Hedge & Hc & _).
  apply Hsole in Hedge as ->.
  destruct p as [|x p]; [done|]. simpl in Hh. simplify_eq. exfalso.
  apply Hc. by left.
Qed.

(** The report is made of the flagged rows, in row order. *)
Lemma check_fold_report graph acts rels acc :
  (foldl (check_relationship graph acts) acc rels).1
  = acc.1 ++ (report_of acts <$> filter (λ rel, is_flagged graph rel = true) rels).
Proof.
  revert acc. induction rels as [|rel rels IH]; intros acc; simpl.
  { by rewrite app_nil_r. }
  rewrite IH, filter_cons. unfold check_relationship.
  fold (pred_id_of rel) (succ_id_of rel) (pred_type_of rel) (lag_of rel).
  change (truthy (pred_id_of rel) && truthy (succ_id_of rel))
    with (has_both_ids rel).
  destruct (is_flagged graph rel) eqn:Hf; unfold is_flagged in Hf.
  - apply andb_true_iff in Hf as [-> ->]. rewrite decide_True by done.
    simpl. by rewrite <-(assoc_L (++)).
  - rewrite decide_False by done.
    destruct (has_both_ids rel); simpl in *; [|done]. by rewrite Hf.
Qed.

Lemma report_flagged_rows acts rels :
  redundant_relationships (analyze_redundant_logic acts rels)
  = report_of acts
      <$> filter (λ rel, is_flagged (build_graph rels) rel = true) rels.
Proof.
  unfold analyze_redundant_logic. cbn [redundant_relationships].
  by rewrite check_fold_report.
Qed.

End DetourProperties.

(** ** The search reads successor ids only *)

Section Shapes.
Context {F1 F2 : Type} {HF1 : FloatOps F1} {HF2 : FloatOps F2}.

Lemma neighbour_entries_shape (g1 : gmap string (list (edge F1)))
    (g2 : gmap string (list (edge F2))) current (lag1 : F1) (lag2 : F2) path :
  successors g1 current = successors g2 current →
  entry_shape <$> neighbour_entries g1 current lag1 path
  = entry_shape <$> neighbour_entries g2 current lag2 path.
Proof.
  unfold successors, neighbour_entries.
  generalize (default [] (g1 !! current)) (default [] (g2 !! current)).
  intros l1. induction l1 as [|[[n1 t1] x1] l1 IH]; intros [|[[n2 t2] x2] l2] Heq;
    csimpl in *; try done.
  injection Heq as -> Heq. specialize (IH _ Heq).
  destruct (bool_decide (n2 ∈ path)); csimpl; [done|]. by rewrite IH.
Qed.

Lemma loop_guard_shape (st1 : search_state F1) (st2 : search_state F2) :
  state_shape st1 = state_shape st2 → loop_guard st1 = loop_guard st2.
Proof.
  unfold state_shape, loop_guard. intros [= Hq ->].
  by destruct (queue st1), (queue st2).
Qed.

Lemma loop_body_shape (g1 : gmap string (list (edge F1)))
    (g2 : gmap string (list (edge F2))) end_
    (st1 : search_state F1) (st2 : search_state F2) :
  (∀ u, successors g1 u = successors g2 u) →
  state_shape st1 = state_shape st2 →
  match loop_body g1 end_ st1, loop_body g2 end_ st2 with
  | Return b1, Return b2 => b1 = b2
  | Continue st1', Continue st2' => state_shape st1' = state_shape st2'
  | _, _ => False
  end.
Proof.
  intros Hg. unfold state_shape, loop_body. intros [= Hq Hv].
  destruct (queue st1) as [|[[c1 l1] p1] rest1],
           (queue st2) as [|[[c2 l2] p2] rest2]; try done.
  csimpl in Hq. injection Hq as -> -> Hrest. rewrite Hv.
  destruct (bool_decide (max_depth < length p2)); simpl; [by rewrite Hrest|].
  destruct (String.eqb c2 end_ && bool_decide (1 < length p2)); [done|].
  destruct (bool_decide (c2 ∈ visited st2)); simpl; [by rewrite Hrest|].
  rewrite !fmap_app, Hrest.
  by rewrite (neighbour_entries_shape g1 g2 c2 l1 l2 p2 (Hg c2)).
Qed.

Lemma bfs_loop_shape (g1 : gmap string (list (edge F1)))
    (g2 : gmap string (list (edge F2))) end_ fuel
    (st1 : search_state F1) (st2 : search_state F2) :
  (∀ u, successors g1 u = successors g2 u) →
  state_shape st1 = state_shape st2 →
  bfs_loop g1 end_ fuel st1 = bfs_loop g2 end_ fuel st2.
Proof.
  intros Hg. revert st1 st2. induction fuel as [|fuel IH]; intros st1 st2 Hs;
    simpl; rewrite (loop_guard_shape _ _ Hs); [done|].
  destruct (loop_guard st2); [|done].
  pose proof (loop_body_shape g1 g2 end_ st1 st2 Hg Hs) as Hb.
  destruct (loop_body g1 end_ st1), (loop_body g2 end_ st2); try done.
  - by subst.
  - by apply IH.
Qed.

Lemma has_alternate_path_shape (g1 : gmap string (list (edge F1)))
    (g2 : gmap string (list (edge F2))) start end_
    (direct1 : string * F1) (direct2 : string * F2) :
  (∀ u, successors g1 u = successors g2 u) →
  has_alternate_path g1 start end_ direct1
  = has_alternate_path g2 start end_ direct2.
Proof.
  intros Hg.
  pose proof (bfs_loop_fuel_mono g1 end_ (search_fuel g1)
                (search_fuel g1 `max` search_fuel g2) _ _
                (Nat.le_max_l _ _) (bfs_loop_total g1 start end_ direct1)) as H1.
  pose proof (bfs_loop_fuel_mono g2 end_ (search_fuel g2)
                (search_fuel g1 `max` search_fuel g2) _ _
                (Nat.le_max_r _ _) (bfs_loop_total g2 start end_ direct2)) as H2.
  rewrite (bfs_loop_shape g1 g2 end_ _ _ (initial_state start) Hg) in H1 by done.
  congruence.
Qed.

End Shapes.
(** ** Two-edge detours are found on graphs below the cap *)

Lemma first_split {A} (P : A → Prop) `{∀ x, Decision (P x)} (l : list A) :
  Exists P l →
  ∃ pre x post, l = pre ++ x :: post ∧ P x ∧ Forall (λ y, ¬ P y) pre.
Proof.
  induction l as [|a l IH]; intros Hex; [by apply Exists_nil in Hex|].
  destruct (decide (P a)) as [Ha|Ha].
  { exists [], a, l. by repeat split. }
  apply Exists_cons in Hex as [?|Hex]; [done|].
  destruct (IH Hex) as (pre & x & post & -> & Hx & Hpre).
  exists (a :: pre), x, post. repeat split; [done|]. by constructor.
Qed.

Section TwoEdges.
Context {F : Type} `{FloatOps F}.
Implicit Types (graph : gmap string (list (edge F))) (st : search_state F).

Lemma bfs_loop_unfold graph end_ fuel st :
  loop_guard st = true →
  bfs_loop graph end_ (S fuel) st
  = match loop_body graph end_ st with
    | Return b => Some b
    | Continue st' => bfs_loop graph end_ fuel st'
    end.
Proof. intros Hg. simpl. by rewrite Hg. Qed.

Lemma successor_in_nodes graph start current n t (l : F) :
  (n, t, l) ∈ default [] (graph !! current) → n ∈ graph_nodes graph start.
Proof.
  destruct (graph !! current) as [es|] eqn:Hes; simpl;
    [|by intros ?%elem_of_nil].
  intros Hin. apply elem_of_union_r, elem_of_list_to_set, list_elem_of_bind.
  exists (current, es). split; [|by apply elem_of_map_to_list].
  apply list_elem_of_fmap. by exists (n, t, l).
Qed.

Lemma within_nodes_step graph start end_ st st' :
  within_nodes (graph_nodes graph start) st →
  loop_body graph end_ st = Continue st' →
  within_nodes (graph_nodes graph start) st'.
Proof.
  intros [Hv Hq] Hb.
  destruct (queue st) as [|[[current lag] path] rest] eqn:Hqs.
  { unfold loop_body in Hb. by rewrite Hqs in Hb. }
  apply Forall_cons in Hq as [Hc Hrest]. unfold entry_node in Hc. simpl in Hc.
  destruct (loop_body_cases graph end_ st _ _ _ _ Hqs)
    as [(_ & _ & Hc')|[(_ & _ & _ & _ & Hc')|[(_ & _ & _ & _ & Hc')|(_ & _ & _ & _ & Hc')]]];
    rewrite Hc' in Hb; simplify_eq; split; simpl; try done.
  - apply union_subseteq. split; [by apply singleton_subseteq_l|done].
  - apply Forall_app. split; [done|]. apply Forall_forall. intros e Hin.
    apply neighbour_entries_elem in Hin as (n & t & l & -> & Hedge & _).
    unfold entry_node. simpl. by eapply successor_in_nodes.
Qed.

Lemma within_nodes_initial graph start :
  within_nodes (graph_nodes graph start) (initial_state start).
Proof.
  split; simpl; [apply empty_subseteq|]. apply Forall_singleton.
  unfold entry_node. simpl. apply elem_of_union_l. by apply elem_of_singleton.
Qed.

Lemma within_nodes_guard (nodes : gset string) st :
  size nodes < visit_cap → within_nodes nodes st → queue st ≠ [] →
  loop_guard st = true.
Proof.
  intros Hsz [Hv _] Hq. unfold loop_guard.
  destruct (queue st); [done|]. apply bool_decide_eq_true.
  pose proof (subseteq_size _ _ Hv). lia.
Qed.

(** Once an entry for [end_] with a path of 2 to 10 nodes is in the queue,
    the loop answers [True]. *)
Lemma target_in_queue graph start end_ fuel st b :
  size (graph_nodes graph start) < visit_cap →
  within_nodes (graph_nodes graph start) st →
  (∃ lag path, (end_, lag, path) ∈ queue st
               ∧ 1 < length path ∧ length path ≤ max_depth) →
  bfs_loop graph end_ fuel st = Some b → b = true.
Proof.
  intros Hsz. revert st. induction fuel as [|fuel IH];
    intros st Hin (lag & path & Ht & Hl & Hd) Hres.
  { simpl in Hres. rewrite (within_nodes_guard _ _ Hsz Hin) in Hres; [done|].
    intros Hq. rewrite Hq in Ht. by apply elem_of_nil in Ht. }
  rewrite bfs_loop_unfold in Hres.
  2:{ apply (within_nodes_guard _ _ Hsz Hin). intros Hq. rewrite Hq in Ht.
      by apply elem_of_nil in Ht. }
  destruct (queue st) as [|[[c lg] p] rest] eqn:Hq; [by apply elem_of_nil in Ht|].
  pose proof (within_nodes_step graph start end_ st) as Hstep.
  destruct (loop_body_cases graph end_ st _ _ _ _ Hq)
    as [(Hdp & _ & Hc)|[(_ & _ & _ & _ & Hc)|[(_ & Hn & _ & _ & Hc)|(_ & Hn & _ & _ & Hc)]]];
    rewrite Hc in Hres; [|by simplify_eq| |].
  - apply (IH _ (Hstep _ Hin Hc)); [|done]. exists lag, path. simpl.
    apply elem_of_cons in Ht as [[= -> -> ->]|Ht]; [lia|done].
  - apply (IH _ (Hstep _ Hin Hc)); [|done]. exists lag, path. simpl.
    apply elem_of_cons in Ht as [[= -> -> ->]|Ht]; [tauto|done].
  - apply (IH _ (Hstep _ Hin Hc)); [|done]. exists lag, path. simpl.
    apply elem_of_cons in Ht as [[= -> -> ->]|Ht]; [tauto|].
    split; [|done]. apply elem_of_app. by left.
Qed.

(** While the queue still holds the entries reached in one edge, the first
    entry for [middle] is explored, which puts the entry for [end_] in the
    queue. *)
Lemma middle_is_explored graph start middle end_ t (l : F) pre :
  size (graph_nodes graph start) < visit_cap →
  (end_, t, l) ∈ default [] (graph !! middle) → end_ ≠ start →
  ∀ fuel st lag post b,
    within_nodes (graph_nodes graph start) st →
    queue st = pre ++ (middle, lag, [start]) :: post →
    Forall (λ e, length (entry_path e) = 1 ∧ entry_node e ≠ middle) pre →
    middle ∉ visited st →
    bfs_loop graph end_ fuel st = Some b → b = true.
Proof.
  intros Hsz Hedge Hne.
  induction pre as [|[[c lg] p] pre IH];
    intros fuel st lag post b Hin Hq Hpre Hm Hres.
  - simpl in Hq. destruct fuel as [|fuel].
    { simpl in Hres. rewrite (within_nodes_guard _ _ Hsz Hin) in Hres; [done|].
      by rewrite Hq. }
    rewrite bfs_loop_unfold in Hres
      by (apply (within_nodes_guard _ _ Hsz Hin); by rewrite Hq).
    destruct (loop_body_cases graph end_ st _ _ _ _ Hq)
      as [(Hdp & _ & Hc)|[(_ & _ & _ & _ & Hc)|[(_ & _ & Hv & _ & Hc)|(_ & _ & _ & _ & Hc)]]];
      rewrite Hc in Hres; [|by simplify_eq|done|].
    { unfold max_depth in Hdp. simpl in Hdp. lia. }
    eapply (target_in_queue graph start end_ fuel); [done| | |exact Hres].
    { by eapply within_nodes_step. }
    exists (f_add lag l), ([start] ++ [middle]). simpl. split; [|unfold max_depth; lia].
    apply elem_of_app. right. unfold neighbour_entries.
    apply list_elem_of_omap. exists (end_, t, l). split; [done|].
    rewrite bool_decide_eq_false_2; [done|].
    intros ->%list_elem_of_singleton. done.
  - apply Forall_cons in Hpre as [[Hlen Hcm] Hpre].
    unfold entry_path, entry_node in Hlen, Hcm. simpl in Hlen, Hcm, Hq.
    destruct fuel as [|fuel].
    { simpl in Hres. rewrite (within_nodes_guard _ _ Hsz Hin) in Hres; [done|].
      by rewrite Hq. }
    rewrite bfs_loop_unfold in Hres
      by (apply (within_nodes_guard _ _ Hsz Hin); by rewrite Hq).
    pose proof (within_nodes_step graph start end_ st) as Hstep.
    destruct (loop_body_cases graph end_ st _ _ _ _ Hq)
      as [(Hdp & _ & Hc)|[(_ & _ & _ & _ & Hc)|[(_ & _ & Hv & _ & Hc)|(_ & _ & _ & _ & Hc)]]];
      rewrite Hc in Hres; [|by simplify_eq| |].
    + unfold max_depth in Hdp. lia.
    + by apply (IH fuel _ lag post b (Hstep _ Hin Hc)).
    + apply (IH fuel _ lag (post ++ neighbour_entries graph c lg p) b
               (Hstep _ Hin Hc)); simpl; [by rewrite <-(assoc_L (++))|done| |done].
      intros [Hc'%elem_of_singleton|?]%elem_of_union; [congruence|done].
Qed.

(** On a graph whose nodes stay below the visit cap, the search from
    [start] to [end_] answers [True] as soon as two edges lead from [start]
    over a node other than [start] to [end_], itself other than [start]. *)
Lemma two_edges_found graph start middle end_ direct_rel :
  size (graph_nodes graph start) < visit_cap →
  has_edge graph start middle → has_edge graph middle end_ →
  middle ≠ start → end_ ≠ start →
  has_alternate_path graph start end_ direct_rel = true.
Proof.
  intros Hsz (t1 & l1 & He1) (t2 & l2 & He2) Hm He.
  pose proof (bfs_loop_total graph start end_ direct_rel) as Hres.
  change (search_fuel graph) with (S (S (visit_cap * S (max_out_degree graph))))
    in Hres.
  pose proof (within_nodes_initial graph start) as Hinit.
  rewrite bfs_loop_unfold in Hres
    by (by apply (within_nodes_guard _ _ Hsz Hinit)).
  assert (Hq : queue (initial_state start) = (start, f_zero, []) :: []) by done.
  destruct (loop_body_cases graph end_ _ _ _ _ _ Hq)
    as [(Hdp & _ & Hc)|[(_ & _ & Hl & _ & Hc)|[(_ & _ & Hv & _ & Hc)|(_ & _ & _ & _ & Hc)]]].
  { unfold max_depth in Hdp. simpl in Hdp. lia. }
  { simpl in Hl. lia. }
  { by apply elem_of_empty in Hv. }
  rewrite Hc in Hres.
  assert (Hex : Exists (λ e : entry F, entry_node e = middle)
                  (neighbour_entries graph start f_zero [])).
  { apply Exists_exists. exists (middle, f_add f_zero l1, [] ++ [start]).
    split; [|done]. unfold neighbour_entries. apply list_elem_of_omap.
    exists (middle, t1, l1). split; [done|].
    rewrite bool_decide_eq_false_2; [done|]. by intros ?%elem_of_nil. }
  destruct (first_split _ _ Hex) as (pre & [[m lag] p] & post & Hsplit & Hnode & Hpre).
  unfold entry_node in Hnode. simpl in Hnode. subst m.
  assert (Hall : Forall (λ e : entry F, entry_path e = [start])
                   (neighbour_entries graph start f_zero [])).
  { apply Forall_forall. intros e Hin.
    by apply neighbour_entries_elem in Hin as (n & t & l & -> & _ & _). }
  rewrite Hsplit in Hall. apply Forall_app in Hall as [Hall1 Hall2].
  apply Forall_cons in Hall2 as [Hp _]. unfold entry_path in Hp. simpl in Hp.
  subst p.
  refine (middle_is_explored graph start middle end_ t2 l2 pre Hsz He2 He
            _ (SearchState ([] ++ neighbour_entries graph start f_zero [])
                 ({[start]} ∪ visited (initial_state start)))
            lag post _ _ Hsplit _ _ Hres).
  - eapply within_nodes_step; [exact Hinit|exact Hc].
  - apply Forall_forall. intros e Hin.
    rewrite Forall_forall in Hall1, Hpre.
    split; [by rewrite (Hall1 e Hin)|by apply Hpre].
  - simpl. intros [Hs%elem_of_singleton|Hs%elem_of_empty]%elem_of_union; done.
Qed.

End TwoEdges.

(** ** The parser over whole files *)

Lemma process_lines_app (st : Xer.state) (lines1 lines2 : list string) :
  Xer.process_lines st (lines1 ++ lines2)
  = Xer.bind (Xer.process_lines st lines1)
             (λ st', Xer.process_lines st' lines2).
Proof.
  revert st. induction lines1 as [|raw lines1 IH]; intros st; simpl; [done|].
  destruct (Xer.process_line st raw) as [st'|e]; simpl; [apply IH|done].
Qed.

Lemma process_line_ok_or_nameless (st : Xer.state) (raw : string) :
  (∃ st', Xer.process_line st raw = Xer.Ok st' ∧ ¬ nameless_table_marker raw)
  ∨ (Xer.process_line st raw = Xer.Raise Xer.IndexError
     ∧ nameless_table_marker raw).
Proof.
  destruct (Xer.process_line st raw) as [st'|[]] eqn:Hp.
  - left. exists st'. split; [done|]. intros Hn.
    apply (proj2 (process_line_raises st raw)) in Hn. congruence.
  - right. split; [done|]. by apply (proj1 (process_line_raises st raw)).
Qed.

(** The lines are read without error exactly when none of them is a table
    marker without a name. *)
Lemma process_lines_raises (st : Xer.state) (lines : list string) :
  Xer.process_lines st lines = Xer.Raise Xer.IndexError
  ↔ Exists nameless_table_marker lines.
Proof.
  revert st. induction lines as [|raw lines IH]; intros st; simpl.
  { split; [done|]. by intros ?%Exists_nil. }
  rewrite Exists_cons.
  destruct (process_line_ok_or_nameless st raw) as [(st' & -> & Hn)|[-> Hn]];
    simpl; [|tauto].
  rewrite IH. tauto.
Qed.

Lemma process_lines_ok (st : Xer.state) (lines : list string) :
  ¬ Exists nameless_table_marker lines →
  ∃ st', Xer.process_lines st lines = Xer.Ok st'.
Proof.
  intros Hn. destruct (Xer.process_lines st lines) as [st'|[]] eqn:Hp; [eauto|].
  by apply process_lines_raises in Hp.
Qed.

(** A skipped line leaves the state as it is. *)
Lemma process_skipped_line (st : Xer.state) (raw : string) :
  is_skipped_line raw = true → Xer.process_line st raw = Xer.Ok st.
Proof.
  unfold is_skipped_line, Xer.process_line.
  destruct (String.eqb (Xer.strip raw) ""); [done|]. simpl.
  destruct (Xer.startswith (Xer.strip raw) "%T"); [done|].
  destruct (Xer.startswith (Xer.strip raw) "%F"); [done|].
  by destruct (Xer.startswith (Xer.strip raw) "%R").
Qed.

(** What a row line does. *)
Lemma process_row_line_cases (st : Xer.state) (raw : string) :
  is_row_line raw = true →
  (Xer.process_line st raw = Xer.Ok st
   ∧ (Xer.current_table st = None ∨ Xer.cols st = []))
  ∨ (∃ table,
       Xer.current_table st = Some table ∧ Xer.cols st ≠ []
       ∧ Xer.process_line st raw
         = Xer.Ok (Xer.append_row st table
                     (Xer.make_row (Xer.cols st) (declared_columns raw)))).
Proof.
  unfold is_row_line. intros Hr.
  destruct (Xer.current_table st) as [table|] eqn:Hcur.
  - destruct (decide (Xer.cols st = [])) as [Hc|Hc].
    + left. split; [|by right]. unfold Xer.process_line.
      destruct (row_marker_line _ Hr) as (-> & -> & ->). by rewrite Hr, Hcur, Hc.
    + right. exists table. repeat split; [done|]. by apply process_row_line.
  - left. split; [|by left]. unfold Xer.process_line.
    destruct (row_marker_line _ Hr) as (-> & -> & ->). by rewrite Hr, Hcur.
Qed.

Lemma append_row_other (st : Xer.state) (table : string)
    (row : gmap string string) :
  table ∉ kept_tables → Xer.append_row st table row = st.
Proof.
  intros Hn. destruct st as [t p a r ro rr cur cs]. unfold Xer.append_row.
  repeat match goal with
  | |- context [String.eqb table ?s] =>
      destruct (String.eqb_spec table s) as [->|_];
      [exfalso; apply Hn; unfold kept_tables; set_solver|]
  end.
  done.
Qed.

(** A state that accepts no rows is left as it is by row lines. *)
Lemma process_rows_dropped (st : Xer.state) (lines : list string) :
  ¬ accepts_rows st →
  Forall (λ raw, is_row_line raw = true) lines →
  Xer.process_lines st lines = Xer.Ok st.
Proof.
  intros Hacc. induction 1 as [|raw lines Hr _ IH]; simpl; [done|].
  destruct (process_row_line_cases st raw Hr)
    as [[-> _]|(table & Hcur & Hcols & ->)]; simpl; [done|].
  rewrite append_row_other; [done|].
  intros Hin. apply Hacc. by exists table.
Qed.

(** What a line does to the tables. *)
Lemma append_row_tables (st : Xer.state) (table : string)
    (row : gmap string string) :
  Xer.current (Xer.append_row st table row) = Xer.current st
  ∧ Xer.cols (Xer.append_row st table row) = Xer.cols st
  ∧ Xer.tasks st `prefix_of` Xer.tasks (Xer.append_row st table row)
  ∧ Xer.preds st `prefix_of` Xer.preds (Xer.append_row st table row)
  ∧ Xer.assigns st `prefix_of` Xer.assigns (Xer.append_row st table row)
  ∧ Xer.resources st `prefix_of` Xer.resources (Xer.append_row st table row)
  ∧ Xer.roles st `prefix_of` Xer.roles (Xer.append_row st table row)
  ∧ Xer.role_rates st `prefix_of` Xer.role_rates (Xer.append_row st table row)
  ∧ length (all_rows (Xer.append_row st table row)) ≤ S (length (all_rows st))
  ∧ (∀ x, x ∈ all_rows (Xer.append_row st table row) → x = row ∨ x ∈ all_rows st).
Proof.
  destruct st as [t p a r ro rr cur cs]. unfold Xer.append_row, all_rows.
  repeat destruct (String.eqb table _); simpl;
    (repeat split; try done; try (by apply prefix_app_r);
     [rewrite ?length_app; simpl; lia
     |intros x; rewrite ?elem_of_app, ?list_elem_of_singleton; tauto]).
Qed.

Lemma process_line_tables (st st' : Xer.state) (raw : string) :
  Xer.process_line st raw = Xer.Ok st' →
  Xer.tasks st `prefix_of` Xer.tasks st'
  ∧ Xer.preds st `prefix_of` Xer.preds st'
  ∧ Xer.assigns st `prefix_of` Xer.assigns st'
  ∧ Xer.resources st `prefix_of` Xer.resources st'
  ∧ Xer.roles st `prefix_of` Xer.roles st'
  ∧ Xer.role_rates st `prefix_of` Xer.role_rates st'
  ∧ length (all_rows st')
    ≤ length (all_rows st) + (if is_row_line raw then 1 else 0).
Proof.
  destruct (is_row_line raw) eqn:Hr.
  - destruct (process_row_line_cases st raw Hr)
      as [[-> _]|(table & _ & _ & ->)]; intros [= <-].
    + repeat split; try done. lia.
    + destruct (append_row_tables st table
                  (Xer.make_row (Xer.cols st) (declared_columns raw)))
        as (_ & _ & ? & ? & ? & ? & ? & ? & ? & _).
      repeat split; try done. lia.
  - unfold is_row_line in Hr. unfold Xer.process_line. rewrite Hr.
    destruct (String.eqb (Xer.strip raw) ""); [intros [= <-]; repeat split; try done; lia|].
    destruct (Xer.startswith (Xer.strip raw) "%T").
    { destruct (Xer.split_tab (Xer.strip raw) !! 1); [|done].
      intros [= <-]. unfold all_rows. simpl. repeat split; try done. lia. }
    destruct (Xer.startswith (Xer.strip raw) "%F"); intros [= <-];
      unfold all_rows; simpl; repeat split; try done; lia.
Qed.

(** The parser only appends: every table keeps its rows, and all tables
    together gain at most one row for each row line. *)
Lemma process_lines_tables (lines : list string) (st st' : Xer.state) :
  Xer.process_lines st lines = Xer.Ok st' →
  Xer.tasks st `prefix_of` Xer.tasks st'
  ∧ Xer.preds st `prefix_of` Xer.preds st'
  ∧ Xer.assigns st `prefix_of` Xer.assigns st'
  ∧ Xer.resources st `prefix_of` Xer.resources st'
  ∧ Xer.roles st `prefix_of` Xer.roles st'
  ∧ Xer.role_rates st `prefix_of` Xer.role_rates st'
  ∧ length (all_rows st')
    ≤ length (all_rows st)
      + length (filter (λ raw, is_row_line raw = true) lines).
Proof.
  revert st. induction lines as [|raw lines IH]; intros st; simpl.
  { intros [= <-]. repeat split; try done. lia. }
  destruct (Xer.process_line st raw) as [st1|e] eqn:Hp; simpl; [|done].
  intros Hrest. apply process_line_tables in Hp
    as (? & ? & ? & ? & ? & ? & Hlen).
  apply IH in Hrest as (? & ? & ? & ? & ? & ? & Hlen').
  repeat split; try (by etrans).
  rewrite filter_cons. destruct (decide (is_row_line raw = true)) as [Hr|Hr].
  - rewrite Hr in Hlen. simpl. lia.
  - apply not_true_is_false in Hr. rewrite Hr in Hlen. lia.
Qed.

(** Every row of the tables has the columns of a column line. *)
Lemma process_line_declared (lines : list string) (st st' : Xer.state)
    (raw : string) :
  raw ∈ lines →
  columns_declared lines st →
  Forall (declared_by lines) (all_rows st) →
  Xer.process_line st raw = Xer.Ok st' →
  columns_declared lines st' ∧ Forall (declared_by lines) (all_rows st').
Proof.
  intros Hin Hcols Hrows.
  destruct (is_row_line raw) eqn:Hr.
  - destruct (process_row_line_cases st raw Hr)
      as [[-> _]|(table & _ & Hne & ->)]; intros [= <-]; [done|].
    destruct (append_row_tables st table
                (Xer.make_row (Xer.cols st) (declared_columns raw)))
      as (_ & Hc & _ & _ & _ & _ & _ & _ & _ & Hx).
    split; [unfold columns_declared; by rewrite Hc|].
    apply Forall_forall. intros x [->|Hold]%Hx.
    + destruct Hcols as [?|(raw0 & Hin0 & Hcol0 & Heq)]; [done|].
      exists raw0. rewrite make_row_dom, <-Heq. by repeat split.
    + rewrite Forall_forall in Hrows. by apply Hrows.
  - unfold is_row_line in Hr. unfold Xer.process_line. rewrite Hr.
    destruct (String.eqb (Xer.strip raw) ""); [by intros [= <-]|].
    destruct (Xer.startswith (Xer.strip raw) "%T") eqn:Ht.
    { destruct (Xer.split_tab (Xer.strip raw) !! 1); [|done].
      intros [= <-]. split; [by left|done]. }
    destruct (Xer.startswith (Xer.strip raw) "%F") eqn:Hf; intros [= <-];
      [|done].
    split; [|done]. right. exists raw. repeat split; [done|].
    unfold is_column_line. by rewrite Ht, Hf.
Qed.

Lemma process_lines_declared (lines rest : list string) (st st' : Xer.state) :
  (∀ raw, raw ∈ rest → raw ∈ lines) →
  columns_declared lines st →
  Forall (declared_by lines) (all_rows st) →
  Xer.process_lines st rest = Xer.Ok st' →
  Forall (declared_by lines) (all_rows st').
Proof.
  revert st. induction rest as [|raw rest IH]; intros st Hsub Hcols Hrows; simpl.
  { by intros [= <-]. }
  destruct (Xer.process_line st raw) as [st1|e] eqn:Hp; simpl; [|done].
  destruct (process_line_declared lines st st1 raw) as [Hc1 Hr1];
    [apply Hsub; by left|done..|].
  apply IH; [|done..]. intros r Hr. apply Hsub. by right.
Qed.

(** A skipped line can be added to a file or taken out of it. *)
Lemma process_lines_skipped (st : Xer.state) (lines1 lines2 : list string)
    (raw : string) :
  is_skipped_line raw = true →
  Xer.process_lines st (lines1 ++ raw :: lines2)
  = Xer.process_lines st (lines1 ++ lines2).
Proof.
  intros Hs. rewrite !process_lines_app.
  destruct (Xer.process_lines st lines1) as [st1|e]; simpl; [|done].
  by rewrite (process_skipped_line _ _ Hs).
Qed.

(** ** Stripping *)

Lemma chars_inj (s t : string) :
  String.list_ascii_of_string s = String.list_ascii_of_string t → s = t.
Proof.
  intros Heq. rewrite <-(String.string_of_list_ascii_of_string s),
    <-(String.string_of_list_ascii_of_string t). by rewrite Heq.
Qed.

Lemma chars_lstrip (s : string) :
  String.list_ascii_of_string (Xer.lstrip s)
  = lstrip_chars (String.list_ascii_of_string s).
Proof. induction s as [|c s IH]; simpl; [done|]. by destruct (Xer.is_space c). Qed.

Lemma chars_rev_app (s t : string) :
  String.list_ascii_of_string (String.rev_app s t)
  = reverse (String.list_ascii_of_string s) ++ String.list_ascii_of_string t.
Proof.
  revert t. induction s as [|c s IH]; intros t; simpl; [done|].
  rewrite IH, reverse_cons, <-(assoc_L (++)). done.
Qed.

Lemma chars_rev (s : string) :
  String.list_ascii_of_string (String.rev s)
  = reverse (String.list_ascii_of_string s).
Proof. unfold String.rev. rewrite chars_rev_app. simpl. apply app_nil_r. Qed.

Lemma chars_strip (s : string) :
  String.list_ascii_of_string (Xer.strip s)
  = reverse (lstrip_chars (reverse (lstrip_chars (String.list_ascii_of_string s)))).
Proof. unfold Xer.strip. by rewrite chars_rev, chars_lstrip, chars_rev, chars_lstrip. Qed.

Lemma lstrip_chars_head (l : list ascii) :
  lstrip_chars l = []
  ∨ ∃ c rest, lstrip_chars l = c :: rest ∧ Xer.is_space c = false.
Proof.
  induction l as [|c l IH]; simpl; [by left|].
  destruct (Xer.is_space c) eqn:Hc; [done|]. right. by exists c, l.
Qed.

Lemma lstrip_chars_idem (l : list ascii) :
  lstrip_chars (lstrip_chars l) = lstrip_chars l.
Proof.
  destruct (lstrip_chars_head l) as [->|(c & rest & -> & Hc)]; [done|].
  simpl. by rewrite Hc.
Qed.

Lemma lstrip_chars_snoc (l : list ascii) (c : ascii) :
  Xer.is_space c = false → lstrip_chars (l ++ [c]) = lstrip_chars l ++ [c].
Proof.
  intros Hc. induction l as [|a l IH]; simpl; [by rewrite Hc|].
  by destruct (Xer.is_space a).
Qed.

(** Taking the spaces off the end of a text that starts with none leaves a
    text that starts with none. *)
Lemma rstrip_chars_keeps_head (l : list ascii) :
  lstrip_chars l = l →
  lstrip_chars (reverse (lstrip_chars (reverse l)))
  = reverse (lstrip_chars (reverse l)).
Proof.
  intros Hl. destruct (lstrip_chars_head l) as [Hn|(c & rest & Heq & Hc)];
    rewrite Hl in *; subst; [done|].
  rewrite reverse_cons, lstrip_chars_snoc, reverse_snoc by done.
  simpl. by rewrite Hc.
Qed.

(** [strip] is idempotent. *)
Lemma strip_idempotent (s : string) : Xer.strip (Xer.strip s) = Xer.strip s.
Proof.
  apply chars_inj. rewrite !chars_strip.
  set (t := lstrip_chars (String.list_ascii_of_string s)).
  assert (Ht : lstrip_chars t = t) by apply lstrip_chars_idem.
  rewrite (rstrip_chars_keeps_head t Ht), reverse_involutive.
  by rewrite lstrip_chars_idem.
Qed.

(** ** The field helper *)

Lemma get_field_value_spec (data_row : gmap string string) (keys : list string) :
  match get_field_value data_row keys with
  | Some v =>
      v ≠ "" ∧ Xer.strip v = v
      ∧ ∃ pre key post,
          keys = pre ++ key :: post
          ∧ v = Xer.strip (default "" (data_row !! key))
          ∧ Forall (blank_field data_row) pre
  | None => Forall (blank_field data_row) keys
  end.
Proof.
  induction keys as [|key keys IH]; simpl; [done|].
  destruct (truthy (Xer.strip (default "" (data_row !! key)))) eqn:Ht.
  - apply truthy_spec in Ht. split; [done|]. split; [apply strip_idempotent|].
    by exists [], key, keys.
  - assert (Hb : blank_field data_row key).
    { unfold blank_field. destruct (decide (Xer.strip (default "" (data_row !! key)) = ""))
        as [|Hne]; [done|]. apply truthy_spec in Hne. congruence. }
    destruct (get_field_value data_row keys) as [v|].
    + destruct IH as (Hv & Hs & pre & k & post & -> & Hk & Hpre).
      split; [done|]. split; [done|].
      exists (key :: pre), k, post. repeat split; [done|]. by constructor.
    + by constructor.
Qed.

(** ** The file name *)

Lemma lower_char_idempotent (c : ascii) : lower_char (lower_char c) = lower_char c.
Proof. by destruct c as [[] [] [] [] [] [] [] []]. Qed.

Lemma lower_idempotent (s : string) : lower (lower s) = lower s.
Proof.
  induction s as [|c s IH]; simpl; [done|].
  by rewrite lower_char_idempotent, IH.
Qed.

Lemma parse_xer_result (content : string) :
  (∃ data, Xer.parse_xer_simplified content = Xer.Ok data
           ∧ ¬ Exists nameless_table_marker (Xer.splitlines content))
  ∨ (Xer.parse_xer_simplified content = Xer.Raise Xer.IndexError
     ∧ Exists nameless_table_marker (Xer.splitlines content)).
Proof.
  unfold Xer.parse_xer_simplified.
  destruct (Xer.process_lines Xer.initial (Xer.splitlines content))
    as [st|[]] eqn:Hp; simpl.
  - left. eexists. split; [done|]. intros Hex.
    apply process_lines_raises with (st := Xer.initial) in Hex. congruence.
  - right. split; [done|]. by eapply process_lines_raises.
Qed.

(** ** Sums of histograms *)

Lemma sum_values_names (counts : gmap string nat) (names : list string) :
  NoDup names → dom counts = list_to_set names →
  sum_values counts = sum_list ((λ name, counts !!! name) <$> names).
Proof.
  intros Hnd Hdom.
  assert (Hfst : ((λ name, (name, counts !!! name)) <$> names).*1 = names).
  { rewrite <-list_fmap_compose. apply list_fmap_id. }
  assert (Heq : counts = list_to_map ((λ name, (name, counts !!! name)) <$> names)).
  { apply map_eq. intros k. symmetry.
    destruct (decide (k ∈ names)) as [Hin|Hnin].
    - rewrite (lookup_of_dom counts k)
        by (rewrite Hdom; by apply elem_of_list_to_set).
      apply elem_of_list_to_map_1; [by rewrite Hfst|].
      apply list_elem_of_fmap. by exists k.
    - rewrite (proj1 (not_elem_of_dom counts k))
        by (rewrite Hdom; by rewrite elem_of_list_to_set).
      apply not_elem_of_list_to_map_1. by rewrite Hfst. }
  unfold sum_values. rewrite Heq at 1.
  rewrite map_to_list_to_map by (by rewrite Hfst).
  by rewrite <-list_fmap_compose.
Qed.

Lemma activity_names_nodup : NoDup activity_names.
Proof. apply (bool_decide_unpack _). vm_compute. exact I. Qed.

Lemma relationship_names_nodup : NoDup relationship_names.
Proof. apply (bool_decide_unpack _). vm_compute. exact I. Qed.

Lemma activity_counts_sum (acts : list (gmap string string)) :
  sum_values (activity_counts_of acts)
  = length (rows_recognised XER_ACTIVITY_MAP task_type_of acts).
Proof.
  rewrite (sum_values_names _ activity_names activity_names_nodup
             (activity_counts_dom acts)).
  rewrite <-(rows_named_sum XER_ACTIVITY_MAP task_type_of activity_names
               acts activity_names_nodup activity_map_names).
  f_equal. apply list_fmap_ext. intros i name Hin%list_elem_of_lookup_2.
  by rewrite (lookup_total_correct _ _ _ (activity_counts_lookup acts name Hin)).
Qed.

Lemma relationship_counts_sum (rels : list (gmap string string)) :
  sum_values (relationship_counts_of rels)
  = length (rows_recognised XER_REL_MAP pred_type_of rels).
Proof.
  rewrite (sum_values_names _ relationship_names relationship_names_nodup
             (relationship_counts_dom rels)).
  rewrite <-(rows_named_sum XER_REL_MAP pred_type_of relationship_names
               rels relationship_names_nodup relationship_map_names).
  f_equal. apply list_fmap_ext. intros i name Hin%list_elem_of_lookup_2.
  by rewrite (lookup_total_correct _ _ _ (relationship_counts_lookup rels name Hin)).
Qed.
(** ** The size of the graph of a table *)

Section GraphSize.
Context {F : Type} `{FloatOps F}.

(** The nodes of the graph of a table are the start and successor ids of
    its rows: there are no more of them than rows, and one. *)
Lemma graph_nodes_bound (rels : list (gmap string string)) (start : string) :
  size (graph_nodes (build_graph (F:=F) rels) start) ≤ S (length rels).
Proof.
  assert (Hsub : graph_nodes (build_graph (F:=F) rels) start
                 ⊆ {[start]} ∪ list_to_set (succ_id_of <$> rels)).
  { unfold graph_nodes. apply union_mono_l. intros n.
    rewrite !elem_of_list_to_set.
    intros ([c es] & Hn & Hc%elem_of_map_to_list)%list_elem_of_bind.
    simpl in Hn. apply list_elem_of_fmap in Hn as ([[n' t] l] & -> & Hin).
    assert (Hadj : default [] (build_graph (F:=F) rels !! c) = es) by (by rewrite Hc).
    rewrite build_graph_adjacency in Hadj. subst es.
    apply list_elem_of_fmap in Hin as (rel & [= -> _ _] & Hrel).
    apply list_elem_of_filter in Hrel as [_ Hrel].
    apply list_elem_of_fmap. by exists rel. }
  etrans; [apply subseteq_size, Hsub|].
  etrans; [apply size_union_bound|]. rewrite size_singleton.
  pose proof (size_list_to_set_bound (succ_id_of <$> rels)) as Hb.
  rewrite length_fmap in Hb. lia.
Qed.

End GraphSize.

(** ** Rows with the same ids *)

Section SameIds.
Context {F1 F2 : Type} {HF1 : FloatOps F1} {HF2 : FloatOps F2}.

Lemma same_ids_both (rel rel' : gmap string string) :
  pred_id_of rel = pred_id_of rel' → succ_id_of rel = succ_id_of rel' →
  has_both_ids rel = has_both_ids rel'.
Proof.
  unfold has_both_ids. fold (pred_id_of rel) (succ_id_of rel)
    (pred_id_of rel') (succ_id_of rel'). by intros -> ->.
Qed.

Lemma same_ids_successors (rels rels' : list (gmap string string)) (u : string) :
  Forall2 (λ rel rel', pred_id_of rel = pred_id_of rel'
                       ∧ succ_id_of rel = succ_id_of rel') rels rels' →
  successors (build_graph (F:=F1) rels) u
  = successors (build_graph (F:=F2) rels') u.
Proof.
  unfold successors. rewrite !build_graph_adjacency. unfold edges_from.
  rewrite <-!list_fmap_compose.
  induction 1 as [|rel rel' rels rels' [Hp Hs] _ IH]; [done|].
  rewrite !filter_cons, <-(same_ids_both _ _ Hp Hs), <-Hp.
  case_decide; csimpl; [|done]. by rewrite IH, Hs.
Qed.

End SameIds.

(** * Further theorems *)

(** X1.  The graph lists, for every node, the rows that have both ids and
    leave that node, in row order and with their type and lag; a node is a
    key of the graph exactly when there is such a row; and the edges of the
    graph are the pairs of ids of those rows. *)
Theorem graph_lists_rows_in_order :
  ∀ (F : Type) (HF : FloatOps F) (rels : list (gmap string string)) (u : string),
    default [] (build_graph (F:=F) rels !! u) = edges_from u rels
    ∧ (is_Some (build_graph (F:=F) rels !! u) ↔ edges_from (F:=F) u rels ≠ [])
    ∧ (∀ v, has_edge (build_graph (F:=F) rels) u v
            ↔ ∃ rel, rel ∈ rels ∧ has_both_ids rel = true
                     ∧ pred_id_of rel = u ∧ succ_id_of rel = v).
Proof.
  intros F HF rels u. split; [apply build_graph_adjacency|].
  split; [apply build_graph_keys|]. intros v. apply build_graph_edge.
Qed.

Lemma flagged_has_both_ids {F : Type} `{FloatOps F}
    (graph : gmap string (list (edge F))) (rels : list (gmap string string)) :
  length (filter (λ rel, is_flagged graph rel = true) rels)
  ≤ length (filter (λ rel, has_both_ids rel = true) rels).
Proof.
  induction rels as [|rel rels IH]; [done|]. rewrite !filter_cons.
  destruct (decide (is_flagged graph rel = true)) as [Hf|Hf];
    destruct (decide (has_both_ids rel = true)) as [Hb|Hb]; simpl; try lia.
  unfold is_flagged in Hf. apply andb_true_iff in Hf as [Hf _]. done.
Qed.

(** X2.  The report of the detector holds one entry for each row that has
    both ids and for which the search answers [True], in row order, with the
    ids, type and lag of the row and the codes of its two activities; its
    count is the length of that list, at most the number of rows with both
    ids, which is at most the total of relationships checked. *)
Theorem report_lists_flagged_rows :
  ∀ (F : Type) (HF : FloatOps F) (acts rels : list (gmap string string)),
    redundant_relationships (analyze_redundant_logic (F:=F) acts rels)
    = report_of acts
        <$> filter (λ rel, is_flagged (build_graph rels) rel = true) rels
    ∧ redundant_count (analyze_redundant_logic (F:=F) acts rels)
      = length (redundant_relationships (analyze_redundant_logic (F:=F) acts rels))
    ∧ redundant_count (analyze_redundant_logic (F:=F) acts rels)
      ≤ length (filter (λ rel, has_both_ids rel = true) rels)
    ∧ length (filter (λ rel, has_both_ids rel = true) rels)
      ≤ total_relationships_checked (analyze_redundant_logic (F:=F) acts rels).
Proof.
  intros F HF acts rels. split; [apply report_flagged_rows|].
  split; [done|]. split.
  - change (redundant_count (analyze_redundant_logic (F:=F) acts rels))
      with (length (redundant_relationships (analyze_redundant_logic (F:=F) acts rels))).
    rewrite report_flagged_rows, length_fmap. apply flagged_has_both_ids.
  - rewrite total_checked_all. apply length_filter.
Qed.

(** X3.  Every entry of the report comes from a row with both ids, and the
    graph of the table has a detour from its predecessor to its successor: a
    walk of 2 to 10 edges that repeats no node before the successor. *)
Theorem reported_relationship_has_detour :
  ∀ (F : Type) (HF : FloatOps F) (acts rels : list (gmap string string))
    (r : redundant_relationship F),
    r ∈ redundant_relationships (analyze_redundant_logic acts rels) →
    ∃ rel path,
      rel ∈ rels ∧ has_both_ids rel = true ∧ r = report_of acts rel
      ∧ detour (build_graph rels) (predecessor_id r) (successor_id r) path.
Proof.
  intros F HF acts rels r. rewrite report_flagged_rows.
  intros (rel & -> & [Hf Hin]%list_elem_of_filter)%list_elem_of_fmap.
  unfold is_flagged in Hf. apply andb_true_iff in Hf as [Hb Hp].
  apply has_alternate_path_detour in Hp as [path Hd]. by exists rel, path.
Qed.

(** The report of [chain_with_shortcut] holds [shortcut_report]. *)
Lemma reported_relationship_has_detour_witness :
  shortcut_report
  ∈ redundant_relationships (analyze_redundant_logic [] chain_with_shortcut)
  ∧ ∃ rel path,
      rel ∈ chain_with_shortcut ∧ has_both_ids rel = true
      ∧ shortcut_report = report_of [] rel
      ∧ detour (build_graph chain_with_shortcut)
          (predecessor_id shortcut_report) (successor_id shortcut_report) path.
Proof.
  assert (Hin : shortcut_report
                ∈ redundant_relationships
                    (analyze_redundant_logic [] chain_with_shortcut)).
  { replace (redundant_relationships
               (analyze_redundant_logic (F:=Z) [] chain_with_shortcut))
      with [shortcut_report] by (vm_compute; reflexivity).
    by left. }
  split; [exact Hin|].
  exact (reported_relationship_has_detour Z Z_float [] chain_with_shortcut
           shortcut_report Hin).
Defined.

(** X4.  The search from a node to itself answers [False], whatever the
    graph; so a relationship of an activity with itself is never in the
    report. *)
Theorem self_relationship_never_redundant :
  ∀ (F : Type) (HF : FloatOps F),
    (∀ (graph : gmap string (list (edge F))) start direct_rel,
       has_alternate_path graph start start direct_rel = false)
    ∧ (∀ acts rels : list (gmap string string),
         Forall (λ r, predecessor_id r ≠ successor_id r)
           (redundant_relationships (analyze_redundant_logic (F:=F) acts rels))).
Proof.
  intros F HF. split; [apply no_detour_to_start|].
  intros acts rels. rewrite report_flagged_rows. apply Forall_forall.
  intros r (rel & -> & [Hf _]%list_elem_of_filter)%list_elem_of_fmap.
  simpl. intros Heq. unfold is_flagged in Hf.
  apply andb_true_iff in Hf as [_ Hp]. rewrite Heq in Hp.
  by rewrite no_detour_to_start in Hp.
Qed.

(** X5.  A row is not flagged when every row with both ids that has its
    successor has its predecessor too: a relationship into an activity with
    no other predecessor is never redundant. *)
Theorem sole_predecessor_never_redundant :
  ∀ (F : Type) (HF : FloatOps F) (rels : list (gmap string string))
    (rel : gmap string string),
    (∀ other, other ∈ rels → has_both_ids other = true →
              succ_id_of other = succ_id_of rel →
              pred_id_of other = pred_id_of rel) →
    is_flagged (F:=F) (build_graph rels) rel = false.
Proof.
  intros F HF rels rel Hsole. unfold is_flagged.
  rewrite no_detour_sole_predecessor; [apply andb_false_r|].
  intros x (other & Hin & Hb & <- & Hs)%build_graph_edge. by apply Hsole.
Qed.

(** In [chain_with_shortcut] the only predecessor of B is A. *)
Lemma sole_predecessor_never_redundant_witness :
  (∀ other, other ∈ chain_with_shortcut → has_both_ids other = true →
            succ_id_of other = succ_id_of (fs "A" "B") →
            pred_id_of other = pred_id_of (fs "A" "B"))
  ∧ is_flagged (F:=Z) (build_graph chain_with_shortcut) (fs "A" "B") = false.
Proof.
  assert (Hsole : ∀ other, other ∈ chain_with_shortcut →
            has_both_ids other = true →
            succ_id_of other = succ_id_of (fs "A" "B") →
            pred_id_of other = pred_id_of (fs "A" "B")).
  { intros other Hin _ Hs. unfold chain_with_shortcut in Hin.
    apply elem_of_cons in Hin as [->|Hin]; [reflexivity|].
    apply elem_of_cons in Hin as [->|Hin]; [vm_compute in Hs; discriminate Hs|].
    apply elem_of_cons in Hin as [->|Hin]; [vm_compute in Hs; discriminate Hs|].
    by apply elem_of_nil in Hin. }
  split; [exact Hsole|].
  exact (sole_predecessor_never_redundant Z Z_float chain_with_shortcut
           (fs "A" "B") Hsole).
Defined.

Lemma fmap_Forall2_eq {A B C} (R : A → B → Prop) (f : A → C) (g : B → C)
    (l : list A) (k : list B) :
  (∀ x y, R x y → f x = g y) → Forall2 R l k → f <$> l = g <$> k.
Proof.
  intros Hfg. induction 1 as [|x y l k Hxy _ IH]; csimpl; [done|].
  by rewrite (Hfg x y Hxy), IH.
Qed.

(** X6.  Which rows are flagged depends on the ids of the rows only: two
    tables whose rows have, one by one, the same predecessor and successor
    ids give the same flags, whatever their types and lags. *)
Theorem flags_ignore_type_and_lag :
  ∀ (F1 F2 : Type) (HF1 : FloatOps F1) (HF2 : FloatOps F2)
    (rels rels' : list (gmap string string)),
    Forall2 (λ rel rel', pred_id_of rel = pred_id_of rel'
                         ∧ succ_id_of rel = succ_id_of rel') rels rels' →
    is_flagged (F:=F1) (build_graph rels) <$> rels
    = is_flagged (F:=F2) (build_graph rels') <$> rels'.
Proof.
  intros F1 F2 HF1 HF2 rels rels' Hsame.
  eapply fmap_Forall2_eq; [|exact Hsame].
  intros rel rel' [Hp Hs]. unfold is_flagged.
  rewrite (same_ids_both _ _ Hp Hs), Hp, Hs. f_equal.
  apply has_alternate_path_shape. intros u. by apply same_ids_successors.
Qed.

(** [retyped_chain] has the ids of [chain_with_shortcut]. *)
Lemma flags_ignore_type_and_lag_witness :
  Forall2 (λ rel rel', pred_id_of rel = pred_id_of rel'
                       ∧ succ_id_of rel = succ_id_of rel')
    chain_with_shortcut retyped_chain
  ∧ is_flagged (F:=Z) (build_graph chain_with_shortcut) <$> chain_with_shortcut
    = is_flagged (F:=Z) (build_graph retyped_chain) <$> retyped_chain.
Proof.
  assert (Hsame : Forall2 (λ rel rel', pred_id_of rel = pred_id_of rel'
                                       ∧ succ_id_of rel = succ_id_of rel')
                    chain_with_shortcut retyped_chain).
  { repeat (constructor; [split; reflexivity|]). constructor. }
  split; [exact Hsame|].
  exact (flags_ignore_type_and_lag Z Z Z_float Z_float chain_with_shortcut
           retyped_chain Hsame).
Defined.

(** X7.  In a table of fewer than 999 rows, a row from an activity to
    another one is reported as soon as two rows with both ids lead from its
    predecessor, over a third activity, to its successor. *)
Theorem two_relationship_detour_is_flagged :
  ∀ (F : Type) (HF : FloatOps F) (acts rels : list (gmap string string))
    (first second direct : gmap string string),
    length rels < 999 →
    first ∈ rels → second ∈ rels → direct ∈ rels →
    has_both_ids first = true → has_both_ids second = true →
    has_both_ids direct = true →
    pred_id_of first = pred_id_of direct →
    succ_id_of first = pred_id_of second →
    succ_id_of second = succ_id_of direct →
    pred_id_of second ≠ pred_id_of direct →
    succ_id_of direct ≠ pred_id_of direct →
    report_of acts direct
    ∈ redundant_relationships (analyze_redundant_logic (F:=F) acts rels).
Proof.
  intros F HF acts rels first second direct Hlen Hin1 Hin2 Hin Hb1 Hb2 Hb
    Hp1 Hmid Hs2 Hne1 Hne2.
  rewrite report_flagged_rows. apply list_elem_of_fmap_2.
  apply list_elem_of_filter. split; [|done].
  unfold is_flagged. rewrite Hb. simpl.
  apply (two_edges_found _ _ (pred_id_of second)); [| | |done..].
  - pose proof (graph_nodes_bound (F:=F) rels (pred_id_of direct)).
    unfold visit_cap. lia.
  - apply build_graph_edge. by exists first.
  - apply build_graph_edge. by exists second.
Qed.

(** The three rows of [chain_with_shortcut]. *)
Lemma two_relationship_detour_is_flagged_witness :
  length chain_with_shortcut < 999
  ∧ report_of (F:=Z) [] (fs "A" "C")
    ∈ redundant_relationships (analyze_redundant_logic [] chain_with_shortcut).
Proof.
  assert (Hlen : length chain_with_shortcut < 999) by (simpl; lia).
  split; [exact Hlen|].
  apply (two_relationship_detour_is_flagged Z Z_float [] chain_with_shortcut
           (fs "A" "B") (fs "B" "C") (fs "A" "C") Hlen);
    try reflexivity; try discriminate.
  - by left.
  - right. by left.
  - right. right. by left.
Defined.
(** X8.  For every parsed file the relationship-type histogram has exactly
    the four names as keys, each with the number of rows whose type tag maps
    to it, and the four counts add up to the number of rows with a known
    tag; a row without a ["pred_type"] entry is counted as
    Finish-to-Start. *)
Theorem relationship_histogram_complete :
  ∀ (F : Type) (HF : FloatOps F) (data : project_data),
    let counts := relationship_counts (analyze_project_data (F:=F) data) in
    dom counts = list_to_set relationship_names
    ∧ Forall (λ name,
                counts !! name
                = Some (length (rows_named XER_REL_MAP pred_type_of name
                                  (relationships data))))
             relationship_names
    ∧ sum_list ((λ name, counts !!! name) <$> relationship_names)
      = length (rows_recognised XER_REL_MAP pred_type_of (relationships data))
    ∧ Forall (λ rel,
                rel !! "pred_type" = None →
                rel ∈ rows_named XER_REL_MAP pred_type_of "Finish-to-Start (FS)"
                        (relationships data))
             (relationships data).
Proof.
  intros F HF data counts. subst counts.
  unfold analyze_project_data. cbn [relationship_counts].
  split; [apply relationship_counts_dom|].
  split; [apply Forall_forall; intros name Hin; by apply relationship_counts_lookup|].
  split.
  - rewrite <-(rows_named_sum XER_REL_MAP pred_type_of relationship_names
                 _ relationship_names_nodup relationship_map_names).
    f_equal. apply list_fmap_ext. intros i name Hin%list_elem_of_lookup_2.
    by rewrite (lookup_total_correct _ _ _
                  (relationship_counts_lookup (relationships data) name Hin)).
  - apply Forall_forall. intros rel Hin Hnone.
    apply list_elem_of_filter. split; [|done].
    unfold pred_type_of. by rewrite Hnone.
Qed.

(** X9.  The parse of a text raises exactly when one of its lines is, once
    stripped, a table marker with no tab after it; every other text is parsed
    into tables. *)
Theorem parse_fails_exactly_on_nameless_marker :
  ∀ content : string,
    (Xer.parse_xer_simplified content = Xer.Raise Xer.IndexError
     ↔ Exists nameless_table_marker (Xer.splitlines content))
    ∧ ((∃ data, Xer.parse_xer_simplified content = Xer.Ok data)
       ↔ ¬ Exists nameless_table_marker (Xer.splitlines content)).
Proof.
  intros content.
  destruct (parse_xer_result content) as [(data & Hp & Hn)|[Hp Hn]];
    rewrite Hp; split; split; try done.
  - by exists data.
  - by intros [data ?].
Qed.

(** X10.  Every row of every table of a parsed file has as its keys the
    columns, at least one, that a column line of the file declares. *)
Theorem parsed_rows_have_declared_columns :
  ∀ (content : string) (data : project_data),
    Xer.parse_xer_simplified content = Xer.Ok data →
    Forall (declared_by (Xer.splitlines content)) (data_rows data).
Proof.
  intros content data. unfold Xer.parse_xer_simplified.
  destruct (Xer.process_lines Xer.initial (Xer.splitlines content))
    as [st|e] eqn:Hp; simpl; [|done].
  intros [= <-].
  change (Forall (declared_by (Xer.splitlines content)) (all_rows st)).
  eapply (process_lines_declared _ (Xer.splitlines content) Xer.initial);
    [done|by left|constructor|done].
Qed.

(** [small_file] is parsed into [small_file_data]. *)
Lemma parsed_rows_have_declared_columns_witness :
  Xer.parse_xer_simplified small_file = Xer.Ok small_file_data
  ∧ Forall (declared_by (Xer.splitlines small_file)) (data_rows small_file_data).
Proof.
  assert (Hp : Xer.parse_xer_simplified small_file = Xer.Ok small_file_data)
    by (vm_compute; reflexivity).
  split; [exact Hp|].
  exact (parsed_rows_have_declared_columns small_file small_file_data Hp).
Defined.

(** X11.  Reading lines only appends rows: each of the six tables keeps the
    rows it had, in their order, at its beginning, and all tables together
    gain at most one row for each row line read. *)
Theorem parser_only_appends :
  ∀ (lines : list string) (st st' : Xer.state),
    Xer.process_lines st lines = Xer.Ok st' →
    Xer.tasks st `prefix_of` Xer.tasks st'
    ∧ Xer.preds st `prefix_of` Xer.preds st'
    ∧ Xer.assigns st `prefix_of` Xer.assigns st'
    ∧ Xer.resources st `prefix_of` Xer.resources st'
    ∧ Xer.roles st `prefix_of` Xer.roles st'
    ∧ Xer.role_rates st `prefix_of` Xer.role_rates st'
    ∧ length (all_rows st')
      ≤ length (all_rows st)
        + length (filter (λ raw, is_row_line raw = true) lines).
Proof. apply process_lines_tables. Qed.

(** The two example row lines read in [task_block]. *)
Lemma parser_only_appends_witness :
  Xer.process_lines task_block [short_row_line; long_row_line]
  = Xer.Ok task_block_filled
  ∧ Xer.tasks task_block `prefix_of` Xer.tasks task_block_filled
  ∧ length (all_rows task_block_filled)
    ≤ length (all_rows task_block)
      + length (filter (λ raw, is_row_line raw = true)
                  [short_row_line; long_row_line]).
Proof.
  assert (Hp : Xer.process_lines task_block [short_row_line; long_row_line]
               = Xer.Ok task_block_filled) by (vm_compute; reflexivity).
  split; [exact Hp|].
  destruct (parser_only_appends _ _ _ Hp) as (Ht & _ & _ & _ & _ & _ & Hl).
  split; [exact Ht|exact Hl].
Defined.

(** X12.  A blank line, or a line that starts with none of the three
    markers, can be added to a file or taken out of it anywhere without
    changing what the parser makes of the file. *)
Theorem skipped_lines_do_not_matter :
  ∀ (st : Xer.state) (lines1 lines2 : list string) (raw : string),
    is_skipped_line raw = true →
    Xer.process_lines st (lines1 ++ raw :: lines2)
    = Xer.process_lines st (lines1 ++ lines2).
Proof. intros st lines1 lines2 raw. apply process_lines_skipped. Qed.

(** The end marker [%E] of a file is a skipped line. *)
Lemma skipped_lines_do_not_matter_witness :
  is_skipped_line "%E" = true
  ∧ Xer.process_lines task_block ([short_row_line] ++ "%E" :: [long_row_line])
    = Xer.process_lines task_block ([short_row_line] ++ [long_row_line]).
Proof.
  split; [reflexivity|].
  apply (skipped_lines_do_not_matter task_block [short_row_line]
           [long_row_line] "%E"). reflexivity.
Defined.

(** X13.  Row lines read while no table is current, while no column is
    declared, or while the current table is not one of the six kept tables,
    are dropped: the state stays as it is and no error is raised. *)
Theorem rows_without_declaration_dropped :
  ∀ (st : Xer.state) (lines : list string),
    ¬ accepts_rows st →
    Forall (λ raw, is_row_line raw = true) lines →
    Xer.process_lines st lines = Xer.Ok st.
Proof. apply process_rows_dropped. Qed.

(** Row lines at the very beginning of a file. *)
Lemma rows_without_declaration_dropped_witness :
  ¬ accepts_rows Xer.initial
  ∧ Forall (λ raw, is_row_line raw = true) [short_row_line; long_row_line]
  ∧ Xer.process_lines Xer.initial [short_row_line; long_row_line]
    = Xer.Ok Xer.initial.
Proof.
  assert (Hacc : ¬ accepts_rows Xer.initial).
  { intros (table & Hcur & _). discriminate Hcur. }
  assert (Hrows : Forall (λ raw, is_row_line raw = true)
                    [short_row_line; long_row_line]).
  { repeat (constructor; [reflexivity|]). constructor. }
  split; [exact Hacc|]. split; [exact Hrows|].
  exact (rows_without_declaration_dropped Xer.initial
           [short_row_line; long_row_line] Hacc Hrows).
Defined.

(** X14.  [get_field_value] returns, stripped, the value of the first key
    whose stripped value is not empty: a value it returns is never empty and
    is already stripped, and it returns [None] exactly when every key is
    absent or has a blank value. *)
Theorem get_field_value_first_nonblank :
  ∀ (data_row : gmap string string) (keys : list string),
    match get_field_value data_row keys with
    | Some v =>
        v ≠ "" ∧ Xer.strip v = v
        ∧ ∃ pre key post,
            keys = pre ++ key :: post
            ∧ v = Xer.strip (default "" (data_row !! key))
            ∧ Forall (blank_field data_row) pre
    | None => Forall (blank_field data_row) keys
    end.
Proof. apply get_field_value_spec. Qed.

(** X15.  In the comparison table of several files, the total of activities
    of a file is the number of its activities with a known type, and the
    total of relationships the number of its relationship rows with a known
    type, so neither exceeds the number of rows of its table; the totals of
    assignments and of resources are the numbers of rows of their tables, and
    the redundant relations are at most the relationship rows. *)
Theorem comparison_totals_count_known_types :
  ∀ (F : Type) (HF : FloatOps F) (filename : string) (data : project_data),
    let row := comparison_row_of filename (analyze_project_data (F:=F) data) in
    cmp_file row = filename
    ∧ cmp_total_activities row
      = length (rows_recognised XER_ACTIVITY_MAP task_type_of (activities data))
    ∧ cmp_total_activities row ≤ length (activities data)
    ∧ cmp_total_relationships row
      = length (rows_recognised XER_REL_MAP pred_type_of (relationships data))
    ∧ cmp_total_relationships row ≤ length (relationships data)
    ∧ cmp_total_assignments row = length (assignments data)
    ∧ cmp_total_resources row = length (resources data)
    ∧ cmp_redundant_relations row ≤ length (relationships data).
Proof.
  intros F HF filename data row. subst row.
  unfold comparison_row_of, analyze_project_data.
  cbn [cmp_file cmp_total_activities cmp_total_relationships
       cmp_total_assignments cmp_total_resources cmp_redundant_relations
       activity_counts relationship_counts total_assignments total_resources
       redundant_logic].
  rewrite activity_counts_sum, relationship_counts_sum.
  repeat split; try apply length_filter.
  change (redundant_count (analyze_redundant_logic (F:=F) (activities data)
                             (relationships data)))
    with (length (redundant_relationships
                    (analyze_redundant_logic (F:=F) (activities data)
                       (relationships data)))).
  rewrite report_flagged_rows, length_fmap. apply length_filter.
Qed.

(** X16.  [parse_file_content] looks at the file name in lower case only.
    It returns [None] exactly when the name ends in [.xer] and a line of the
    text is a table marker with no tab after it, or when the name ends in
    neither [.xer] nor [.xml]; for a name that ends in [.xer] it returns the
    tables of [parse_xer_simplified]. *)
Theorem file_name_dispatch :
  ∀ content filename : string,
    (parse_file_content content filename = None
     ↔ (endswith (lower filename) ".xer" = true
        ∧ Exists nameless_table_marker (Xer.splitlines content))
       ∨ (endswith (lower filename) ".xer" = false
          ∧ endswith (lower filename) ".xml" = false))
    ∧ parse_file_content content (lower filename)
      = parse_file_content content filename
    ∧ (endswith (lower filename) ".xer" = true →
       ∀ data, parse_file_content content filename = Some data
               ↔ Xer.parse_xer_simplified content = Xer.Ok data).
Proof.
  intros content filename. unfold parse_file_content.
  rewrite lower_idempotent. split; [|split; [done|]].
  - destruct (endswith (lower filename) ".xer").
    + destruct (parse_xer_result content) as [(data & -> & Hn)|[-> Hn]].
      * split; [done|]. intros [[_ ?]|[? _]]; done.
      * split; [by left|done].
    + destruct (endswith (lower filename) ".xml").
      * split; [done|]. intros [[? _]|[_ ?]]; done.
      * split; [by right|done].
  - intros ->. intros data.
    destruct (Xer.parse_xer_simplified content); split; congruence.
Qed.
(** X17.  The resource lookup holds rows of the resource table only, each
    under its own id, and its keys are exactly the ids of the rows of the
    table (the empty string for a row without an id). *)
Theorem resource_lookup_holds_table_rows :
  ∀ rsrcs : list (gmap string string),
    (∀ id r, resource_lookup_of rsrcs !! id = Some r →
             r ∈ rsrcs ∧ rsrc_id_of r = id)
    ∧ (∀ r, r ∈ rsrcs → is_Some (resource_lookup_of rsrcs !! rsrc_id_of r))
    ∧ dom (resource_lookup_of rsrcs) = list_to_set (rsrc_id_of <$> rsrcs).
Proof.
  intros rsrcs.
  assert (Hsome : ∀ id r, resource_lookup_of rsrcs !! id = Some r →
                          r ∈ rsrcs ∧ rsrc_id_of r = id).
  { intros id r. rewrite resource_lookup_last. intros Hl.
    apply last_Some_elem_of, list_elem_of_filter in Hl as [? ?]. done. }
  assert (Hkey : ∀ r, r ∈ rsrcs →
                      is_Some (resource_lookup_of rsrcs !! rsrc_id_of r)).
  { intros r Hin. rewrite resource_lookup_last.
    destruct (filter (λ r', rsrc_id_of r' = rsrc_id_of r) rsrcs) as [|x l] eqn:Hf.
    - exfalso. eapply (filter_nil_not_elem_of _ _ r Hf); done.
    - rewrite last_cons. destruct (last l); by eexists. }
  split; [exact Hsome|]. split; [exact Hkey|].
  apply set_eq. intros id. rewrite elem_of_dom, elem_of_list_to_set, list_elem_of_fmap.
  split.
  - intros [r Hr]. destruct (Hsome _ _ Hr) as [Hin <-]. by exists r.
  - intros (r & -> & Hin). by apply Hkey.
Qed.

(** In [duplicate_resources] the id R1 leads to a row of the table. *)
Lemma resource_lookup_holds_table_rows_witness :
  resource_lookup_of duplicate_resources !! "R1"
  = Some (resource_row "R1" "RT_Mat")
  ∧ resource_row "R1" "RT_Mat" ∈ duplicate_resources
  ∧ rsrc_id_of (resource_row "R1" "RT_Mat") = "R1".
Proof.
  assert (Hl : resource_lookup_of duplicate_resources !! "R1"
               = Some (resource_row "R1" "RT_Mat")) by (vm_compute; reflexivity).
  split; [exact Hl|].
  exact (proj1 (resource_lookup_holds_table_rows duplicate_resources) _ _ Hl).
Defined.
